(** * autonomous-drone: trajectory planner and visual take-off/landing node

    A shallow embedding of
      - src/trajectory_planner/src/trajectory_planner.cpp
      - src/visual_control/takeoff_n_land.cpp
    together with a model of the Ewok distance volume the planner drives.

    Conventions.
      - C++ [int] (and Eigen::Vector3i components) are [Z] values kept in the
        32-bit two's-complement range by [wrap32].
      - [float]/[double] values are elements of an abstract carrier [F] with
        the operations the code applies to them ([FloatOps]); nothing is
        assumed about rounding.  [Q] gives an exact instance used to
        evaluate the definitions on concrete inputs.
      - ROS callbacks are state transformers; everything the node obtains
        from outside (ros::ok(), the message queue, the clock, service
        replies, tf look-ups) is read from an explicit environment. *)

From Stdlib Require Import ZArith QArith Qround Qabs Lia.
From stdpp Require Import base list strings.
From Equations Require Import Equations.

Open Scope Z_scope.

(** ** Machine integers *)

Module Int32.

Definition modulus : Z := 2 ^ 32.
Definition half_modulus : Z := 2 ^ 31.

(** Two's-complement normalisation of a mathematical integer to [int]. *)
Definition wrap32 (z : Z) : Z := (z + half_modulus) mod modulus - half_modulus.

Definition in_range (z : Z) : Prop := - half_modulus <= z < half_modulus.

(** Whether a mathematical integer is an [int].  The result of signed
    arithmetic that is not one is undefined behaviour. *)
Definition fits (z : Z) : bool := (- half_modulus <=? z) && (z <? half_modulus).

End Int32.

(** ** Small vectors (Eigen::Vector3i / Vector3f / Vector4f) *)

Record Vec3 (A : Type) := mkVec3 { vx : A; vy : A; vz : A }.
Arguments mkVec3 {A} _ _ _.
Arguments vx {A} _.
Arguments vy {A} _.
Arguments vz {A} _.

Record Vec4 (A : Type) := mkVec4 { v0 : A; v1 : A; v2 : A; v3 : A }.
Arguments mkVec4 {A} _ _ _ _.
Arguments v0 {A} _.
Arguments v1 {A} _.
Arguments v2 {A} _.
Arguments v3 {A} _.

Definition Vector3i : Type := Vec3 Z.

Definition vmap {A B} (f : A -> B) (v : Vec3 A) : Vec3 B :=
  mkVec3 (f (vx v)) (f (vy v)) (f (vz v)).

Definition vzip {A B C} (f : A -> B -> C) (a : Vec3 A) (b : Vec3 B) : Vec3 C :=
  mkVec3 (f (vx a) (vx b)) (f (vy a) (vy b)) (f (vz a) (vz b)).

(** [p.head<3>()] *)
Definition head3 {A} (p : Vec4 A) : Vec3 A := mkVec3 (v0 p) (v1 p) (v2 p).

(** Vector3i subtraction on [int] components. *)
Definition vsub (a b : Vector3i) : Vector3i :=
  vzip (fun x y => Int32.wrap32 (x - y)) a b.

(** [diff.array().any()]: some component is non-zero. *)
Definition vany (d : Vector3i) : bool :=
  negb (vx d =? 0) || negb (vy d =? 0) || negb (vz d =? 0).

Definition vec_in_range (v : Vector3i) : Prop :=
  Int32.in_range (vx v) /\ Int32.in_range (vy v) /\ Int32.in_range (vz v).

(** ** Floating-point operations used by the code *)

Class FloatOps (F : Type) := {
  (** a decimal literal of the source, rounded to the type *)
  f_lit : Q -> F;
  (** conversion of an [int] *)
  f_of_int : Z -> F;
  f_add : F -> F -> F;
  f_sub : F -> F -> F;
  f_mul : F -> F -> F;
  f_div : F -> F -> F;
  f_neg : F -> F;
  f_lt : F -> F -> bool;
  (** [std::floor] followed by conversion to an integer *)
  f_floor : F -> Z;
  (** [(float)(a / b)] for an integer [a] promoted to double and a double
      literal [b]: the quotient taken in double precision, then narrowed *)
  f_narrow_div : Z -> Q -> F
}.

(** Exact rational arithmetic as an instance, for evaluation. *)
#[export] Instance FloatOps_Q : FloatOps Q := {
  f_lit q := q;
  f_of_int z := inject_Z z;
  f_add := Qplus;
  f_sub := Qminus;
  f_mul := Qmult;
  f_div := Qdiv;
  f_neg := Qopp;
  f_lt a b := match Qcompare a b with Lt => true | _ => false end;
  f_floor := Qfloor;
  f_narrow_div a b := Qdiv (inject_Z a) b
}.

(** [inspect] keeps the equation of a scrutinee available to the
    termination obligations of the loops below. *)
Definition inspect {A} (a : A) : {b | a = b} := exist _ a eq_refl.

(** ** Messages shared by both nodes *)

(** ros::Time / ros::Duration, in nanoseconds. *)
Definition Time : Type := Z.

(** geometry_msgs::Pose: position (x, y, z), orientation (x, y, z, w). *)
Record Pose (F : Type) := mkPose { position : Vec3 F; orientation : Vec4 F }.
Arguments mkPose {F} _ _.
Arguments position {F} _.
Arguments orientation {F} _.

(** geometry_msgs::PoseStamped *)
Record PoseStamped (F : Type) := mkPoseStamped { ps_stamp : Time; pose : Pose F }.
Arguments mkPoseStamped {F} _ _.
Arguments ps_stamp {F} _.
Arguments pose {F} _.

(** A default-constructed message: every field zero. *)
Definition zero_pose {F} `{FloatOps F} : Pose F :=
  mkPose (mkVec3 (f_lit 0) (f_lit 0) (f_lit 0))
         (mkVec4 (f_lit 0) (f_lit 0) (f_lit 0) (f_lit 0)).

Definition zero_pose_stamped {F} `{FloatOps F} : PoseStamped F :=
  mkPoseStamped 0 zero_pose.

(** ** The egocentric distance volume (ewok::EuclideanDistanceRingBuffer)

    The class is used by trajectory_planner.cpp through getIdx, setOffset,
    getVolumeCenter, moveVolume and insertPointCloud; its header is not
    part of the sources at hand, so its operations are modelled from the
    specification (sections 3 and 4.2). *)

Module DistanceVolume.

(** Modelled from the spec: the occupancy state of a voxel, "free / occupied
    / unknown". *)
Inductive Occupancy := Free | Occupied | Unknown.

(** Modelled from the spec: the Voxel of section 3, "occupancy state (free /
    occupied / unknown), a scalar distance-to-nearest-obstacle estimate
    (capped at a maximum truncation radius), last-update tick". *)
Record Voxel (F : Type) := mkVoxel { occ : Occupancy; dist : F; tick : nat }.
Arguments mkVoxel {F} _ _ _.
Arguments occ {F} _.
Arguments dist {F} _.
Arguments tick {F} _.

(** Modelled from the spec: the Distance Volume of section 3, a cubic grid of
    voxels of a fixed physical [resolution], addressed through an integer
    [offset]; [truncation] is the truncation radius, which doubles as the
    sentinel "far" value, and [clock] counts the volume's updates. *)
Record Volume (F : Type) := mkVolume {
  resolution : F;
  truncation : F;
  offset : Vector3i;
  voxels : list (Voxel F);
  clock : nat
}.
Arguments mkVolume {F} _ _ _ _ _.
Arguments resolution {F} _.
Arguments truncation {F} _.
Arguments offset {F} _.
Arguments voxels {F} _.
Arguments clock {F} _.

(** Modelled from the spec: the two parts of insertion that section 4.2 and
    the open question of section 9 leave to the implementer: which voxels
    lie "along the ray" from the sensor origin to a point (given the
    resolution), and the rule by which distances are propagated "from
    occupied voxels" (given the truncation radius, the grid edge length and
    the occupancy of every voxel, in storage order). *)
Class RayCarving (F : Type) := {
  raycast : F -> Vec3 F -> Vec3 F -> list Vector3i;
  propagate : F -> Z -> list Occupancy -> list F
}.

(** Modelled from the spec: the axes along which the offset shifts ("per
    axis"), with the access to one component of a grid index. *)
Inductive Axis := AxisX | AxisY | AxisZ.

Definition component (a : Axis) (v : Vector3i) : Z :=
  match a with AxisX => vx v | AxisY => vy v | AxisZ => vz v end.

Definition set_component (a : Axis) (c : Z) (v : Vector3i) : Vector3i :=
  match a with
  | AxisX => mkVec3 c (vy v) (vz v)
  | AxisY => mkVec3 (vx v) c (vz v)
  | AxisZ => mkVec3 (vx v) (vy v) c
  end.

Section RingBuffer.
Context {F : Type} `{FloatOps F} `{RayCarving F}.

(** The template parameter: log2 of the grid edge length. *)
Variable POW : Z.

(** Modelled from the spec: "a cubic grid of edge length 2^POW voxels (power
    of two chosen so indices can wrap with a bitmask instead of modulo)". *)
Definition N : Z := 2 ^ POW.
Definition mask : Z := N - 1.
Definition voxel_count : nat := Z.to_nat (N * N * N).

(** Modelled from the spec: a voxel that reports "unknown/far". *)
Definition unknown_voxel (far : F) (now : nat) : Voxel F := mkVoxel Unknown far now.

(** Modelled from the spec: construction of the volume with its resolution
    and truncation radius; every voxel starts unknown and far. *)
Definition new_volume (res trunc : F) : Volume F :=
  mkVolume res trunc (mkVec3 0 0 0)
           (replicate voxel_count (unknown_voxel trunc 0%nat)) 0%nat.

(** Modelled from the spec: "worldToIndex(point) -> gridIndex: integer
    bucketing of a world coordinate at resolution granularity". *)
Definition getIdx (e : Volume F) (point : Vec3 F) : Vector3i :=
  vmap (fun c => Int32.wrap32 (f_floor (f_div c (resolution e)))) point.

(** Modelled from the spec: "an integer offset vector denotes which
    world-grid coordinate currently occupies voxel-index (0,0,0)". *)
Definition setOffset (idx : Vector3i) (e : Volume F) : Volume F :=
  mkVolume (resolution e) (truncation e) idx (voxels e) (clock e).

(** Modelled from the spec: "currentCenter() -> gridIndex: the world-grid
    coordinate presently mapped to the volume's geometric center (derived
    from offset)"; the window is [offset, offset + 2^POW), its centre lies
    2^(POW-1) above the offset on every axis. *)
Definition getVolumeCenter (e : Volume F) : Vector3i :=
  vmap (fun o => Int32.wrap32 (o + N / 2)) (offset e).

(** Modelled from the spec: "any world coordinate maps to a voxel index via
    (world_idx - offset) mod 2^POW component-wise", the modulo taken with
    the bitmask. *)
Definition toVoxelIndex (e : Volume F) (w : Vector3i) : Vector3i :=
  vzip (fun wi oi => Z.land (wi - oi) mask) w (offset e).

(** Modelled from the spec: the "fixed-size array with modular (bitmask)
    indexing" of section 9; the position of a voxel index in the array. *)
Definition linear (i : Vector3i) : nat :=
  Z.to_nat ((vx i * N + vy i) * N + vz i).

(** Modelled from the spec: the component along [a] of the voxel index
    stored at array position [k], which tells the layer the voxel is in. *)
Definition layer_of (a : Axis) (k : Z) : Z :=
  match a with
  | AxisX => k / (N * N)
  | AxisY => (k / N) mod N
  | AxisZ => k mod N
  end.

(** Modelled from the spec: "no world coordinate outside
    [offset, offset + 2^POW) per axis is representable". *)
Definition insideVolume (e : Volume F) (w : Vector3i) : bool :=
  (vx (offset e) <=? vx w) && (vx w <? vx (offset e) + N) &&
  (vy (offset e) <=? vy w) && (vy w <? vy (offset e) + N) &&
  (vz (offset e) <=? vz w) && (vz w <? vz (offset e) + N).

(** Modelled from the spec: the layer, along [a], of the voxels that hold
    world layer [w] under the index mapping. *)
Definition voxelLayer (a : Axis) (w : Z) (e : Volume F) : Z :=
  Z.land (w - component a (offset e)) mask.

(** Modelled from the spec: "clear and reset the voxel layer that rotates
    out": every voxel of the layer becomes unknown and far. *)
Definition clearLayer (a : Axis) (layer : Z) (e : Volume F) : Volume F :=
  mkVolume (resolution e) (truncation e) (offset e)
    (imap (fun k v => if layer_of a (Z.of_nat k) =? layer
                      then unknown_voxel (truncation e) (clock e) else v)
          (voxels e))
    (clock e).

(** Modelled from the spec: one shift of the offset by one voxel layer along
    axis [a], in the direction of [d]; the world layer that leaves the
    window (the lowest one when the window moves up, the highest one when
    it moves down) is located through the index mapping and cleared. *)
Definition shiftAxis (a : Axis) (d : Z) (e : Volume F) : Volume F :=
  let o := component a (offset e) in
  if 0 <? d then
    let e' := clearLayer a (voxelLayer a o e) e in
    mkVolume (resolution e') (truncation e')
             (set_component a (Int32.wrap32 (o + 1)) (offset e'))
             (voxels e') (clock e')
  else if d <? 0 then
    let e' := clearLayer a (voxelLayer a (o + N - 1) e) e in
    mkVolume (resolution e') (truncation e')
             (set_component a (Int32.wrap32 (o - 1)) (offset e'))
             (voxels e') (clock e')
  else e.

(** Modelled from the spec: the step of recenter, which "incrementally shifts
    offset toward targetCenterIndex one voxel-layer at a time per axis";
    [direction] is the remaining difference between target and centre. *)
Definition moveVolume (direction : Vector3i) (e : Volume F) : Volume F :=
  let e' := shiftAxis AxisZ (vz direction)
              (shiftAxis AxisY (vy direction)
                 (shiftAxis AxisX (vx direction) e)) in
  mkVolume (resolution e') (truncation e') (offset e') (voxels e') (S (clock e')).

(** Modelled from the spec: "marks the corresponding voxel": the occupancy
    state [o] is written to the voxel of world index [w], with the tick of
    the update, if the window holds [w]. *)
Definition mark (o : Occupancy) (w : Vector3i) (e : Volume F) : Volume F :=
  if insideVolume e w then
    mkVolume (resolution e) (truncation e) (offset e)
      (alter (fun v => mkVoxel o (dist v) (clock e))
             (linear (toVoxelIndex e w)) (voxels e))
      (clock e)
  else e.

(** Modelled from the spec: "for each point within the volume's physical
    extent, marks the corresponding voxel occupied and marks voxels along
    the ray from sensorOrigin to the point as free".  The ray is carved
    first, so that the voxel of the point itself ends up occupied. *)
Definition carve (origin : Vec3 F) (e : Volume F) (p : Vec4 F) : Volume F :=
  let w := getIdx e (head3 p) in
  if insideVolume e w then
    mark Occupied w
         (foldl (fun acc c => mark Free c acc) e
                (raycast (resolution e) origin (head3 p)))
  else e.

(** Modelled from the spec: "distance recomputation ... from occupied voxels
    capped at the truncation radius - cells beyond the radius keep a
    sentinel far value". *)
Definition updateDistance (e : Volume F) : Volume F :=
  let ds := propagate (truncation e) N (occ <$> voxels e) in
  mkVolume (resolution e) (truncation e) (offset e)
    (imap (fun k v => mkVoxel (occ v) (default (truncation e) (ds !! k)) (tick v))
          (voxels e))
    (clock e).

(** Modelled from the spec: "insert(pointCloudFrame, sensorOrigin)": every
    point is carved in turn, then the distances are recomputed. *)
Definition insertPointCloud (cloud : list (Vec4 F)) (origin : Vec3 F)
    (e : Volume F) : Volume F :=
  let e' := updateDistance (foldl (carve origin) e cloud) in
  mkVolume (resolution e') (truncation e') (offset e') (voxels e') (S (clock e')).

(** Modelled from the spec: "queryDistance(point) -> distance: returns the
    voxel's stored distance-to-obstacle, or the sentinel far value if
    outside the volume". *)
Definition queryDistance (e : Volume F) (point : Vec3 F) : F :=
  let w := getIdx e point in
  if insideVolume e w
  then default (truncation e) (dist <$> voxels e !! linear (toVoxelIndex e w))
  else truncation e.

(** *** Views of the volume used to state its properties *)

(** The occupancy state and the distance of every voxel, in storage order. *)
Definition occupancy (e : Volume F) : list Occupancy := occ <$> voxels e.
Definition distances (e : Volume F) : list F := dist <$> voxels e.

(** What insertion reads of the volume besides its voxels. *)
Definition geometry (e : Volume F) : F * F * Vector3i :=
  (resolution e, truncation e, offset e).

(** The occupancy writes [carve] performs for one point, in order: the
    state written and the world index it is written to. *)
Definition point_writes (origin : Vec3 F) (e : Volume F) (p : Vec4 F)
    : list (Occupancy * Vector3i) :=
  let w := getIdx e (head3 p) in
  if insideVolume e w
  then (pair Free <$> raycast (resolution e) origin (head3 p)) ++ [(Occupied, w)]
  else [].

Definition cloud_writes (origin : Vec3 F) (e : Volume F) (cloud : list (Vec4 F))
    : list (Occupancy * Vector3i) :=
  concat (point_writes origin e <$> cloud).

Definition apply_marks (ws : list (Occupancy * Vector3i)) (e : Volume F) : Volume F :=
  foldl (fun acc ow => mark ow.1 ow.2 acc) e ws.

(** One write, seen on the array of occupancy states. *)
Definition slot_write (e : Volume F) (l : list Occupancy)
    (ow : Occupancy * Vector3i) : list Occupancy :=
  if insideVolume e ow.2
  then <[linear (toVoxelIndex e ow.2) := ow.1]> l
  else l.

End RingBuffer.

End DistanceVolume.

(** ** trajectory_planner.cpp *)

Module TrajectoryPlanner.
Import DistanceVolume.

(** Eigen::Affine3f and its product with a homogeneous point. *)
Class EigenOps (F : Type) := {
  Affine3f : Type;
  affine_apply : Affine3f -> Vec4 F -> Vec4 F
}.

(** A shared pointer: the address of the object it refers to. *)
Definition Ptr : Type := nat.

(** The Ewok planning classes the node instantiates:
    Polynomial3DOptimization<10>, PolynomialTrajectory3D<10> and
    UniformBSpline3DOptimization<6>, with the member functions called by
    endpoint_position_cb. *)
Class EwokPlanning (F : Type) := {
  PolynomialTrajectory3D : Type;
  UniformBSpline3DOptimization : Type;
  (** [Polynomial3DOptimization<10> to(limits); to.computeTrajectory(path)] *)
  computeTrajectory : Vec4 F -> list (Vec3 F) -> PolynomialTrajectory3D;
  (** [new UniformBSpline3DOptimization<6>(traj, dt)] *)
  new_UniformBSpline3DOptimization :
    PolynomialTrajectory3D -> F -> UniformBSpline3DOptimization;
  setNumControlPointsOptimized :
    Z -> UniformBSpline3DOptimization -> UniformBSpline3DOptimization;
  setDistanceBuffer :
    Ptr -> UniformBSpline3DOptimization -> UniformBSpline3DOptimization;
  setDistanceThreshold :
    F -> UniformBSpline3DOptimization -> UniformBSpline3DOptimization;
  setLimits :
    Vec4 F -> UniformBSpline3DOptimization -> UniformBSpline3DOptimization
}.

(** The depth image as the callback reads it: [cv_ptr->image] with its data
    pointer viewed as an array of uint16_t. *)
Record Image := mkImage { cols : Z; rows : Z; data : list Z }.

(** sensor_msgs::Image as far as the callback uses it: the header stamp and
    what cv_bridge::toCvShare makes of the message (the image, or the text
    of the cv_bridge::Exception). *)
Record sensor_Image := mkSensorImage { stamp : Time; toCvShare : Image + string }.

Inductive LogLine :=
| ROS_ERROR (text : string)
| ROS_INFO (text : string)
| ROS_WARN (text : string)
| ROS_INFO_origin (idx : Vector3i).

(** [for (int i = start; i < bound; i += 4) acc = body(i, acc)], where the
    body may fail.  [None] is undefined behaviour: the body fails, or
    [i += 4] leaves the range of [int]. *)
Equations? for_stride4 {A} (bound : Z) (body : Z -> A -> option A)
    (i : Z) (acc : A) : option A by wf (Z.to_nat (bound - i)) lt :=
for_stride4 bound body i acc with inspect (i <? bound) := {
  | exist _ true _ with body i acc := {
      | Some acc' with inspect (Int32.fits (i + 4)) := {
          | exist _ true _ => for_stride4 bound body (i + 4) acc'
          | exist _ false _ => None }
      | None => None }
  | exist _ false _ => Some acc }.
Proof. lia. Qed.

Section Planner.
Context {F : Type} `{FloatOps F} `{RayCarving F} `{EigenOps F} `{EwokPlanning F}.

Definition POW : Z := 6.
Definition dt : F := f_lit 0.5.
Definition num_opt_points : Z := 7.
Definition max_velocity : F := f_lit 0.3.
Definition max_acceleration : F := f_lit 0.5.
Definition resolution : F := f_lit 0.1.
Definition distance_threshold : F := f_lit 0.3.

Definition fx : F := f_lit 457.815979003906.
Definition fy : F := f_lit 457.815979003906.
Definition cx : F := f_lit 249.322647094727.
Definition cy : F := f_lit 179.5.

(** The globals of the node.  [edrb] is the shared pointer and [edrb_obj]
    the ring buffer it points to; [listener] is held by the environment. *)
Record Planner := mkPlanner {
  initialized : bool;
  endpoint_position : PoseStamped F;
  local_position : PoseStamped F;
  traj : option PolynomialTrajectory3D;
  edrb : Ptr;
  edrb_obj : Volume F;
  spline_optimization : option UniformBSpline3DOptimization
}.

(** [listener->lookupTransform("map", "drone", stamp, transform)]: the
    transform (already cast to float), or the text of the
    tf::TransformException that is thrown. *)
Definition TransformListener : Type := Time -> Affine3f + string.

(** [data[v*cv_ptr->image.cols + u]]; [None] is undefined behaviour: the
    [int] product or sum of the index overflows, or the read is outside
    the buffer. *)
Definition pixel (img : Image) (u v : Z) : option Z :=
  let i := v * cols img + u in
  if Int32.fits (v * cols img) && Int32.fits i then
    if i <? 0 then None else data img !! Z.to_nat i
  else None.

(** Lines 144-151: the world point of pixel (u, v) with raw range [uval]. *)
Definition project (T_w_c : Affine3f) (u v uval : Z) : Vec4 F :=
  let val := f_narrow_div uval 5000.0 in
  let p := mkVec4 (f_div (f_mul val (f_sub (f_of_int u) cx)) fx)
                  (f_div (f_mul val (f_sub (f_of_int v) cy)) fy)
                  val
                  (f_of_int 1) in
  affine_apply T_w_c p.

(** Lines 138-154: the body of the inner loop. *)
Definition depth_pixel (T_w_c : Affine3f) (img : Image) (u v : Z)
    (cloud1 : list (Vec4 F)) : option (list (Vec4 F)) :=
  match pixel img u v with
  | None => None
  | Some uval =>
      if 0 <? uval then Some (cloud1 ++ [project T_w_c u v uval])
      else Some cloud1
  end.

(** Lines 132-156: the two nested loops filling [cloud1]. *)
Definition build_cloud (T_w_c : Affine3f) (img : Image) : option (list (Vec4 F)) :=
  for_stride4 (cols img)
    (fun u cloud1 =>
       for_stride4 (rows img) (fun v c => depth_pixel T_w_c img u v c) 0 cloud1)
    0 [].

(** The values [0, 4, 8, ...] below [bound]: the counters a loop
    [for (i = 0; i < bound; i += 4)] goes through. *)
Definition strided (bound : Z) : list Z :=
  (fun k => 4 * k) <$> seqZ 0 ((bound + 3) / 4).

(** Running a fallible body over a list of counters. *)
Fixpoint fold_opt {A} (body : Z -> A -> option A) (l : list Z) (acc : A) : option A :=
  match l with
  | [] => Some acc
  | i :: l' =>
      match body i acc with
      | Some acc' => fold_opt body l' acc'
      | None => None
      end
  end.

(** The depth image is a [rows] x [cols] array of uint16_t, small enough
    for the [int] counters and the [int] index [v*cols + u] of the loops
    not to overflow. *)
Definition wf_image (img : Image) : Prop :=
  0 <= cols img /\ 0 <= rows img /\
  Z.of_nat (length (data img)) = rows img * cols img /\
  Forall (fun x => 0 <= x < 65536) (data img) /\
  cols img + 3 < Int32.half_modulus /\ rows img + 3 < Int32.half_modulus /\
  rows img * cols img < Int32.half_modulus.

(** Section 6 of the specification: "width, height, row-major range
    samples".  The range sample of pixel (u, v), column [u] of row [v], is
    entry [v * cols + u] of the data; a position outside the image has
    none, which reads as 0 ("no return"). *)
Definition range_sample (img : Image) (u v : Z) : Z :=
  if (0 <=? u) && (u <? cols img) && (0 <=? v) && (v <? rows img)
  then default 0 (data img !! Z.to_nat (v * cols img + u))
  else 0.

(** Section 4.1 of the specification: "d is range scaled by a fixed
    depth-unit divisor". *)
Definition depth_of_range (raw : Z) : F := f_narrow_div raw 5000.0.

(** Section 4.1 of the specification: "x = d(u-cx)/fx, y = d(v-cy)/fy,
    z = d", as a homogeneous point. *)
Definition pinhole (u v : Z) (d : F) : Vec4 F :=
  mkVec4 (f_div (f_mul d (f_sub (f_of_int u) cx)) fx)
         (f_div (f_mul d (f_sub (f_of_int v) cy)) fy)
         d (f_of_int 1).

(** The world point the specification assigns to pixel [p] = (u, v). *)
Definition world_point (T_w_c : Affine3f) (img : Image) (p : Z * Z) : Vec4 F :=
  affine_apply T_w_c
    (pinhole p.1 p.2 (depth_of_range (range_sample img p.1 p.2))).

Definition valid_sample (img : Image) (p : Z * Z) : Prop :=
  range_sample img p.1 p.2 <> 0.

#[export] Instance valid_sample_dec img p : Decision (valid_sample img p) :=
  decide (range_sample img p.1 p.2 <> 0).

(** [origin_idx - edrb->getVolumeCenter()] *)
Definition center_diff (origin_idx : Vector3i) (e : Volume F) : Vector3i :=
  vsub origin_idx (getVolumeCenter POW e).

(** Distance left to travel by the recentering loop. *)
Definition recenter_measure (origin_idx : Vector3i) (e : Volume F) : nat :=
  let d := center_diff origin_idx e in
  Z.to_nat (Z.abs (vx d) + Z.abs (vy d) + Z.abs (vz d)).

(** Lines 184-187: one pass through the body of the recentering loop. *)
Definition recenter_body (origin_idx : Vector3i) (e : Volume F) : Volume F :=
  moveVolume POW (center_diff origin_idx e) e.

(** Lines 181-188: [while (diff.array().any()) { edrb->moveVolume(diff); ... }] *)
Equations? recenter (origin_idx : Vector3i) (e : Volume F) : Volume F
    by wf (recenter_measure origin_idx e) lt :=
recenter origin_idx e with inspect (vany (center_diff origin_idx e)) := {
  | exist _ true _ => recenter origin_idx (recenter_body origin_idx e)
  | exist _ false _ => e }.
Proof.
  clear recenter.
  assert (Hstep : forall o g : Z,
    let d := Int32.wrap32 (g - Int32.wrap32 (o + 32)) in
    (0 < d -> Int32.wrap32 (g - Int32.wrap32 (Int32.wrap32 (o + 1) + 32)) = d - 1) /\
    (d < 0 -> Int32.wrap32 (g - Int32.wrap32 (Int32.wrap32 (o - 1) + 32)) = d + 1)).
  { intros o g. unfold Int32.wrap32, Int32.modulus, Int32.half_modulus.
    change (2 ^ 32) with 4294967296. change (2 ^ 31) with 2147483648.
    cbv zeta. split; intros Hd; Z.div_mod_to_equations; lia. }
  pose (step := fun d o : Z =>
    if 0 <? d then Int32.wrap32 (o + 1)
    else if d <? 0 then Int32.wrap32 (o - 1) else o).
  assert (Hshift : forall (a : Axis) (d : Z) (v : Volume F),
    offset (shiftAxis POW a d v) =
    set_component a (step d (component a (offset v))) (offset v)).
  { intros a d v. unfold shiftAxis, step.
    destruct (0 <? d); [reflexivity|].
    destruct (d <? 0); [reflexivity|].
    destruct a, v as [r t [ox oy oz] vs ck]; reflexivity. }
  assert (Hoff : forall (d : Vector3i) (v : Volume F),
    offset (moveVolume POW d v) =
    mkVec3 (step (vx d) (vx (offset v))) (step (vy d) (vy (offset v)))
           (step (vz d) (vz (offset v)))).
  { intros d v. unfold moveVolume. cbn [offset]. rewrite !Hshift. reflexivity. }
  unfold recenter_body, recenter_measure, center_diff, getVolumeCenter.
  rewrite Hoff. clear Hoff Hshift.
  destruct e as [res tr [ox oy oz] vs ck], origin_idx as [gx gy gz].
  unfold vany, center_diff, getVolumeCenter in e1.
  unfold vsub, vzip, vmap, N, POW in *.
  cbn [offset vx vy vz] in *.
  change (2 ^ 6 / 2) with 32 in *.
  pose proof (Hstep ox gx) as [Hx1 Hx2].
  pose proof (Hstep oy gy) as [Hy1 Hy2].
  pose proof (Hstep oz gz) as [Hz1 Hz2].
  clear Hstep.
  set (dx := Int32.wrap32 (gx - Int32.wrap32 (ox + 32))) in *.
  set (dy := Int32.wrap32 (gy - Int32.wrap32 (oy + 32))) in *.
  set (dz := Int32.wrap32 (gz - Int32.wrap32 (oz + 32))) in *.
  unfold step.
  destruct (Z.ltb_spec 0 dx) as [Px|Px];
    [rewrite (Hx1 Px)
    |destruct (Z.ltb_spec dx 0) as [Qx|Qx]; [rewrite (Hx2 Qx)|fold dx]];
  (destruct (Z.ltb_spec 0 dy) as [Py|Py];
    [rewrite (Hy1 Py)
    |destruct (Z.ltb_spec dy 0) as [Qy|Qy]; [rewrite (Hy2 Qy)|fold dy]]);
  (destruct (Z.ltb_spec 0 dz) as [Pz|Pz];
    [rewrite (Hz1 Pz)
    |destruct (Z.ltb_spec dz 0) as [Qz|Qz]; [rewrite (Hz2 Qz)|fold dz]]);
  lia.
Qed.

Definition with_volume (st : Planner) (init : bool) (e : Volume F) : Planner :=
  mkPlanner init (endpoint_position st) (local_position st) (traj st)
            (edrb st) e (spline_optimization st).

(** Lines 92-211.  The result is the new state with the lines logged, or
    [None] when the loops over the image have undefined behaviour (a read
    outside the buffer, an [int] that overflows). *)
Definition depth_cam_cb (listener : TransformListener) (msg : sensor_Image)
    (st : Planner) : option (Planner * list LogLine) :=
  match toCvShare msg with
  | inr what => Some (st, [ROS_ERROR ("cv_bridge exception: " +:+ what)])
  | inl img =>
    match listener (stamp msg) with
    | inr what =>
        Some (st, [ROS_INFO "Couldn't get transform"; ROS_WARN what])
    | inl T_w_c =>
      match build_cloud T_w_c img with
      | None => None
      | Some cloud1 =>
        let origin :=
          head3 (affine_apply T_w_c
                   (mkVec4 (f_of_int 0) (f_of_int 0) (f_of_int 0) (f_of_int 1))) in
        if negb (initialized st) then
          let idx := getIdx (edrb_obj st) origin in
          let e := setOffset idx (edrb_obj st) in
          Some (with_volume st true (insertPointCloud POW cloud1 origin e),
                [ROS_INFO_origin idx])
        else
          let origin_idx := getIdx (edrb_obj st) origin in
          let e := recenter origin_idx (edrb_obj st) in
          Some (with_volume st (initialized st)
                            (insertPointCloud POW cloud1 origin e), [])
      end
    end
  end.

(** Lines 66-90. *)
Definition endpoint_position_cb (msg : PoseStamped F) (st : Planner) : Planner :=
  let endpoint_position' := msg in
  let start_point := position (pose (local_position st)) in
  let end_point := position (pose endpoint_position') in
  let limits := mkVec4 max_velocity max_acceleration (f_of_int 0) (f_of_int 0) in
  let path := [start_point; end_point] in
  let traj' := computeTrajectory limits path in
  let so := new_UniformBSpline3DOptimization traj' dt in
  let so := setNumControlPointsOptimized num_opt_points so in
  let so := setDistanceBuffer (edrb st) so in
  let so := setDistanceThreshold distance_threshold so in
  let so := setLimits limits so in
  mkPlanner (initialized st) endpoint_position' (local_position st)
            (Some traj') (edrb st) (edrb_obj st) (Some so).

(** Lines 213-216. *)
Definition local_position_cb (msg : PoseStamped F) (st : Planner) : Planner :=
  mkPlanner (initialized st) (endpoint_position st) msg (traj st)
            (edrb st) (edrb_obj st) (spline_optimization st).

(** The globals once main has run line 231: the ring buffer allocated at
    address [p] with [resolution] and truncation distance 1.0. *)
Definition main_init (p : Ptr) : Planner :=
  mkPlanner false zero_pose_stamped zero_pose_stamped None
            p (new_volume POW resolution (f_lit 1.0)) None.

(** What ros::spinOnce hands to the three subscribers. *)
Inductive Event :=
| EndpointPosition (msg : PoseStamped F)
| LocalPosition (msg : PoseStamped F)
| DepthImage (listener : TransformListener) (msg : sensor_Image).

Definition dispatch (ev : Event) (st : Planner) : option Planner :=
  match ev with
  | EndpointPosition msg => Some (endpoint_position_cb msg st)
  | LocalPosition msg => Some (local_position_cb msg st)
  | DepthImage listener msg => fst <$> depth_cam_cb listener msg st
  end.

(** The callbacks run one after the other, in arrival order. *)
Fixpoint spin (evs : list Event) (st : Planner) : option Planner :=
  match evs with
  | [] => Some st
  | ev :: evs' =>
      match dispatch ev st with
      | Some st' => spin evs' st'
      | None => None
      end
  end.

(** The number of voxels the ring buffer holds. *)
Definition voxels_held (st : Planner) : Z :=
  Z.of_nat (length (voxels (edrb_obj st))).

(** A depth frame whose image decodes is a well-formed image. *)
Definition wf_event (ev : Event) : Prop :=
  match ev with
  | DepthImage _ msg =>
      match toCvShare msg with inl img => wf_image img | inr _ => True end
  | _ => True
  end.

(** *** Further views of the planner *)

(** A depth frame the callback ingests: the image decodes and the
    transform for its stamp is known. *)
Definition ingested (ev : Event) : bool :=
  match ev with
  | DepthImage listener msg =>
      match toCvShare msg, listener (stamp msg) with
      | inl _, inl _ => true
      | _, _ => false
      end
  | _ => false
  end.

Definition is_depth (ev : Event) : bool :=
  match ev with DepthImage _ _ => true | _ => false end.

(** The local position after the position messages among [evs] have been
    received on top of [p0]. *)
Definition last_local (p0 : PoseStamped F) (evs : list Event) : PoseStamped F :=
  foldl (fun p ev => match ev with LocalPosition msg => msg | _ => p end) p0 evs.

(** The limits vector built at line 74. *)
Definition limits : Vec4 F :=
  mkVec4 max_velocity max_acceleration (f_of_int 0) (f_of_int 0).

(** The spline optimisation set up at lines 83-88 for a trajectory. *)
Definition spline_for (p : Ptr) (tr : PolynomialTrajectory3D)
    : UniformBSpline3DOptimization :=
  setLimits limits
    (setDistanceThreshold distance_threshold
       (setDistanceBuffer p
          (setNumControlPointsOptimized num_opt_points
             (new_UniformBSpline3DOptimization tr dt)))).

(** The dimensions of the image keep the [int] counters [u], [v] and the
    [int] index [v*cols + u] of the loops from overflowing. *)
Definition int_sized (img : Image) : Prop :=
  0 <= cols img /\ 0 <= rows img /\
  cols img + 3 < Int32.half_modulus /\ rows img + 3 < Int32.half_modulus /\
  rows img * cols img < Int32.half_modulus.

(** Every pixel the loops sample lies inside the image buffer. *)
Definition sampled_in_buffer (img : Image) : Prop :=
  forall u v, u ∈ strided (cols img) -> v ∈ strided (rows img) ->
    (Z.to_nat (v * cols img + u) < length (data img))%nat.

End Planner.

End TrajectoryPlanner.

(** ** takeoff_n_land.cpp *)

Module TakeoffNLand.

(** The angle computations of the node: atan2f, fabs,
    tf::createQuaternionMsgFromYaw, and the yaw that
    tf::Matrix3x3(q).getRPY extracts from a quaternion. *)
Class AngleOps (F : Type) := {
  atan2f : F -> F -> F;
  f_abs : F -> F;
  createQuaternionMsgFromYaw : F -> Vec4 F;
  getYaw : Vec4 F -> F
}.

(** mavros_msgs::State *)
Record State := mkState { connected : bool; armed : bool; mode : string }.

(** geometry_msgs::PoseArray *)
Record PoseArray (F : Type) := mkPoseArray { pa_stamp : Time; poses : list (Pose F) }.
Arguments mkPoseArray {F} _ _.
Arguments pa_stamp {F} _.
Arguments poses {F} _.

(** geometry_msgs::TransformStamped *)
Record TransformStamped (F : Type) := mkTransformStamped {
  ts_stamp : Time;
  frame_id : string;
  child_frame_id : string;
  translation : Vec3 F;
  rotation : Vec4 F
}.
Arguments mkTransformStamped {F} _ _ _ _ _.
Arguments ts_stamp {F} _.
Arguments frame_id {F} _.
Arguments child_frame_id {F} _.
Arguments translation {F} _.
Arguments rotation {F} _.

(** A message waiting in the callback queue.  A marker message comes with
    the answer tfBuffer.lookupTransform("map", "target_position", ...) will
    give while its callback runs: the translation, or [None] when
    tf2::TransformException is thrown. *)
Inductive Msg (F : Type) :=
| StateMsg (m : State)
| MarkerMsg (m : PoseArray F) (target : option (Vec3 F))
| LocalPositionMsg (m : PoseStamped F).
Arguments StateMsg {F} _.
Arguments MarkerMsg {F} _ _.
Arguments LocalPositionMsg {F} _.

(** Everything outside the node.  Each field answers the k-th use of one
    primitive: ros::ok(), ros::spinOnce() (the messages it dispatches, in
    order), ros::Time::now(), and the three service clients, whose answer is
    the value returned by call() paired with the success flag of the
    response. *)
Record Env (F : Type) := mkEnv {
  ros_ok : nat -> bool;
  inbox : nat -> list (Msg F);
  ros_now : nat -> Time;
  set_mode_srv : nat -> bool * bool;
  arming_srv : nat -> bool * bool;
  land_srv : nat -> bool * bool
}.
Arguments mkEnv {F} _ _ _ _ _ _.
Arguments ros_ok {F} _ _.
Arguments inbox {F} _ _.
Arguments ros_now {F} _ _.
Arguments set_mode_srv {F} _ _.
Arguments arming_srv {F} _ _.
Arguments land_srv {F} _ _.

(** The globals of the node, what it has sent so far ([published]: the
    setpoints given to setpoint_pos_pub, oldest first; [broadcast]: the
    transforms given to the tf broadcasters), and how many times each
    source of the environment has been consulted.  [pose_NWU] is assigned
    by takeOff although the file declares no such variable; it is kept as
    one more global. *)
Record Node (F : Type) := mkNode {
  setpoint_pos_NWU : PoseStamped F;
  pose_NWU : PoseStamped F;
  last_request : Time;
  arm_cmd_value : bool;
  current_state : State;
  marker_position : PoseArray F;
  local_position : PoseStamped F;
  published : list (PoseStamped F);
  broadcast : list (TransformStamped F);
  n_ok : nat;
  n_spin : nat;
  n_now : nat;
  n_set_mode : nat;
  n_arming : nat;
  n_land : nat
}.
Arguments mkNode {F} _ _ _ _ _ _ _ _ _ _ _ _ _ _ _.
Arguments setpoint_pos_NWU {F} _.
Arguments pose_NWU {F} _.
Arguments last_request {F} _.
Arguments arm_cmd_value {F} _.
Arguments current_state {F} _.
Arguments marker_position {F} _.
Arguments local_position {F} _.
Arguments published {F} _.
Arguments broadcast {F} _.
Arguments n_ok {F} _.
Arguments n_spin {F} _.
Arguments n_now {F} _.
Arguments n_set_mode {F} _.
Arguments n_arming {F} _.
Arguments n_land {F} _.

(** Assignment to one global. *)
Definition set_setpoint_pos_NWU {F} (x : PoseStamped F) (st : Node F) : Node F :=
  mkNode x (pose_NWU st) (last_request st) (arm_cmd_value st)
         (current_state st) (marker_position st) (local_position st)
         (published st) (broadcast st) (n_ok st) (n_spin st) (n_now st)
         (n_set_mode st) (n_arming st) (n_land st).

Definition set_pose_NWU {F} (x : PoseStamped F) (st : Node F) : Node F :=
  mkNode (setpoint_pos_NWU st) x (last_request st) (arm_cmd_value st)
         (current_state st) (marker_position st) (local_position st)
         (published st) (broadcast st) (n_ok st) (n_spin st) (n_now st)
         (n_set_mode st) (n_arming st) (n_land st).

Definition set_last_request {F} (x : Time) (st : Node F) : Node F :=
  mkNode (setpoint_pos_NWU st) (pose_NWU st) x (arm_cmd_value st)
         (current_state st) (marker_position st) (local_position st)
         (published st) (broadcast st) (n_ok st) (n_spin st) (n_now st)
         (n_set_mode st) (n_arming st) (n_land st).

Definition set_arm_cmd_value {F} (x : bool) (st : Node F) : Node F :=
  mkNode (setpoint_pos_NWU st) (pose_NWU st) (last_request st) x
         (current_state st) (marker_position st) (local_position st)
         (published st) (broadcast st) (n_ok st) (n_spin st) (n_now st)
         (n_set_mode st) (n_arming st) (n_land st).

Definition set_current_state {F} (x : State) (st : Node F) : Node F :=
  mkNode (setpoint_pos_NWU st) (pose_NWU st) (last_request st)
         (arm_cmd_value st) x (marker_position st) (local_position st)
         (published st) (broadcast st) (n_ok st) (n_spin st) (n_now st)
         (n_set_mode st) (n_arming st) (n_land st).

Definition set_marker_position {F} (x : PoseArray F) (st : Node F) : Node F :=
  mkNode (setpoint_pos_NWU st) (pose_NWU st) (last_request st)
         (arm_cmd_value st) (current_state st) x (local_position st)
         (published st) (broadcast st) (n_ok st) (n_spin st) (n_now st)
         (n_set_mode st) (n_arming st) (n_land st).

Definition set_local_position {F} (x : PoseStamped F) (st : Node F) : Node F :=
  mkNode (setpoint_pos_NWU st) (pose_NWU st) (last_request st)
         (arm_cmd_value st) (current_state st) (marker_position st) x
         (published st) (broadcast st) (n_ok st) (n_spin st) (n_now st)
         (n_set_mode st) (n_arming st) (n_land st).

Definition set_published {F} (x : list (PoseStamped F)) (st : Node F) : Node F :=
  mkNode (setpoint_pos_NWU st) (pose_NWU st) (last_request st)
         (arm_cmd_value st) (current_state st) (marker_position st)
         (local_position st) x (broadcast st) (n_ok st) (n_spin st)
         (n_now st) (n_set_mode st) (n_arming st) (n_land st).

Definition set_broadcast {F} (x : list (TransformStamped F)) (st : Node F) : Node F :=
  mkNode (setpoint_pos_NWU st) (pose_NWU st) (last_request st)
         (arm_cmd_value st) (current_state st) (marker_position st)
         (local_position st) (published st) x (n_ok st) (n_spin st)
         (n_now st) (n_set_mode st) (n_arming st) (n_land st).

Definition set_n_ok {F} (x : nat) (st : Node F) : Node F :=
  mkNode (setpoint_pos_NWU st) (pose_NWU st) (last_request st)
         (arm_cmd_value st) (current_state st) (marker_position st)
         (local_position st) (published st) (broadcast st) x (n_spin st)
         (n_now st) (n_set_mode st) (n_arming st) (n_land st).

Definition set_n_spin {F} (x : nat) (st : Node F) : Node F :=
  mkNode (setpoint_pos_NWU st) (pose_NWU st) (last_request st)
         (arm_cmd_value st) (current_state st) (marker_position st)
         (local_position st) (published st) (broadcast st) (n_ok st) x
         (n_now st) (n_set_mode st) (n_arming st) (n_land st).

Definition set_n_now {F} (x : nat) (st : Node F) : Node F :=
  mkNode (setpoint_pos_NWU st) (pose_NWU st) (last_request st)
         (arm_cmd_value st) (current_state st) (marker_position st)
         (local_position st) (published st) (broadcast st) (n_ok st)
         (n_spin st) x (n_set_mode st) (n_arming st) (n_land st).

Definition set_n_set_mode {F} (x : nat) (st : Node F) : Node F :=
  mkNode (setpoint_pos_NWU st) (pose_NWU st) (last_request st)
         (arm_cmd_value st) (current_state st) (marker_position st)
         (local_position st) (published st) (broadcast st) (n_ok st)
         (n_spin st) (n_now st) x (n_arming st) (n_land st).

Definition set_n_arming {F} (x : nat) (st : Node F) : Node F :=
  mkNode (setpoint_pos_NWU st) (pose_NWU st) (last_request st)
         (arm_cmd_value st) (current_state st) (marker_position st)
         (local_position st) (published st) (broadcast st) (n_ok st)
         (n_spin st) (n_now st) (n_set_mode st) x (n_land st).

Definition set_n_land {F} (x : nat) (st : Node F) : Node F :=
  mkNode (setpoint_pos_NWU st) (pose_NWU st) (last_request st)
         (arm_cmd_value st) (current_state st) (marker_position st)
         (local_position st) (published st) (broadcast st) (n_ok st)
         (n_spin st) (n_now st) (n_set_mode st) (n_arming st) x.

(** The outcome of running part of the node: a value and the new state, an
    access outside an array ([Fault]), or a loop that is still running
    when the fuel is spent. *)
Inductive Res (A : Type) :=
| Ok (a : A)
| Fault
| OutOfFuel.
Arguments Ok {A} _.
Arguments Fault {A}.
Arguments OutOfFuel {A}.

Definition M (F A : Type) : Type := Node F -> Res (A * Node F).

#[export] Instance M_ret {F} : MRet (M F) := fun A a st => Ok (a, st).

#[export] Instance M_bind {F} : MBind (M F) := fun A B f c st =>
  match c st with
  | Ok (a, st') => f a st'
  | Fault => Fault
  | OutOfFuel => OutOfFuel
  end.

Definition get {F} : M F (Node F) := fun st => Ok (st, st).
Definition modify {F} (f : Node F -> Node F) : M F unit := fun st => Ok (tt, f st).
Definition fault {F A} : M F A := fun _ => Fault.
Definition out_of_fuel {F A} : M F A := fun _ => OutOfFuel.

Definition FLIGHT_ALTITUDE : Q := 1.0.
Definition ROS_RATE : Q := 20.0.
Definition MAX_ATTEMPTS : nat := 100.

(** The number of passes of [for (int i = 0; i < bound; ++i)]. *)
Definition iterations (bound : Q) : nat := Z.to_nat (Qceiling bound).

(** ros::Duration(s), in nanoseconds. *)
Definition Duration (s : Q) : Z := Qfloor (s * 1000000000).

Section Node.
Context {F : Type} `{FloatOps F} `{AngleOps F}.
Variable env : Env F.

(** [ros::ok()] *)
Definition ok : M F bool := fun st =>
  Ok (ros_ok env (n_ok st), set_n_ok (S (n_ok st)) st).

(** [ros::Time::now()] *)
Definition now : M F Time := fun st =>
  Ok (ros_now env (n_now st), set_n_now (S (n_now st)) st).

(** [setpoint_pos_pub.publish(setpoint_pos_NWU)] *)
Definition publish_setpoint : M F unit :=
  modify (fun st => set_published (published st ++ [setpoint_pos_NWU st]) st).

(** [br.sendTransform(transformStamped)] *)
Definition sendTransform (t : TransformStamped F) : M F unit :=
  modify (fun st => set_broadcast (broadcast st ++ [t]) st).

(** [rate.sleep()] changes nothing the node can see. *)
Definition sleep : M F unit := mret tt.

(** [client.call(cmd) && cmd.response.success] *)
Definition call_set_mode : M F bool := fun st =>
  let r := set_mode_srv env (n_set_mode st) in
  Ok (r.1 && r.2, set_n_set_mode (S (n_set_mode st)) st).

Definition call_arming : M F bool := fun st =>
  let r := arming_srv env (n_arming st) in
  Ok (r.1 && r.2, set_n_arming (S (n_arming st)) st).

Definition call_land : M F bool := fun st =>
  let r := land_srv env (n_land st) in
  Ok (r.1 && r.2, set_n_land (S (n_land st)) st).

(** [marker_position.poses[0]]: the vector is read without a bounds check. *)
Definition poses_0 : M F (Pose F) :=
  st ← get;
  match poses (marker_position st) with
  | p :: _ => mret p
  | [] => fault
  end.

(** Lines 49-51. *)
Definition state_cb (msg : State) : M F unit :=
  modify (set_current_state msg).

(** Lines 54-98. *)
Definition marker_position_cb (msg : PoseArray F) (target : option (Vec3 F))
    : M F unit :=
  modify (set_marker_position msg);;
  t1 ← now;
  p0 ← poses_0;
  sendTransform
    (mkTransformStamped t1 "drone" "marker"
       (mkVec3 (vz (position p0)) (f_neg (vx (position p0)))
               (f_neg (vy (position p0))))
       (mkVec4 (f_lit 0) (f_lit 0) (f_lit 0) (f_lit 1)));;
  t2 ← now;
  sendTransform
    (mkTransformStamped t2 "marker" "target_position"
       (mkVec3 (f_neg (f_lit 0.6)) (f_of_int 0) (f_of_int 0))
       (orientation p0));;
  match target with
  | Some tr =>
      modify (fun st =>
        set_setpoint_pos_NWU
          (mkPoseStamped (ps_stamp (setpoint_pos_NWU st))
             (mkPose tr (orientation (pose (setpoint_pos_NWU st))))) st)
  | None => mret tt
  end.

(** Lines 101-117. *)
Definition local_position_cb (msg : PoseStamped F) : M F unit :=
  modify (set_local_position msg);;
  t ← now;
  sendTransform
    (mkTransformStamped t "map" "drone"
       (position (pose msg)) (orientation (pose msg))).

Definition dispatch (m : Msg F) : M F unit :=
  match m with
  | StateMsg s => state_cb s
  | MarkerMsg a target => marker_position_cb a target
  | LocalPositionMsg p => local_position_cb p
  end.

Fixpoint dispatch_all (ms : list (Msg F)) : M F unit :=
  match ms with
  | [] => mret tt
  | m :: ms' => dispatch m;; dispatch_all ms'
  end.

(** [ros::spinOnce()]: the callbacks of the queued messages run in order. *)
Definition spinOnce : M F unit :=
  st ← get;
  modify (set_n_spin (S (n_spin st)));;
  dispatch_all (inbox env (n_spin st)).

(** [for (int i = 0; ros::ok() && i < n; ++i) body], where the body
    answers [true] to break out of the loop. *)
Fixpoint for_ok_break (n : nat) (body : M F bool) : M F unit :=
  running ← ok;
  if (running : bool) then
    match n return M F unit with
    | O => mret tt
    | S n' => stop ← body; if (stop : bool) then mret tt else for_ok_break n' body
    end
  else mret tt.

Definition for_ok (n : nat) (body : M F unit) : M F unit :=
  for_ok_break n (body;; mret false).

(** [while (cond) body]; the fuel bounds the number of passes. *)
Fixpoint while_fuel (fuel : nat) (cond : M F bool) (body : M F unit) : M F unit :=
  match fuel with
  | O => out_of_fuel
  | S fuel' =>
      c ← cond;
      if (c : bool) then body;; while_fuel fuel' cond body else mret tt
  end.

(** Lines 361-371. *)
Definition currentYaw : M F F :=
  st ← get; mret (getYaw (orientation (pose (local_position st)))).

Definition publish_spin_sleep : M F unit :=
  publish_setpoint;; spinOnce;; sleep.

(** [ros::Time::now() - last_request > ros::Duration(5.0)] *)
Definition request_due : M F bool :=
  t ← now; st ← get; mret (Duration 5.0 <? t - last_request st).

(** [ros::Time::now() - marker_position.header.stamp < ros::Duration(1.0)] *)
Definition marker_fresh : M F bool :=
  t ← now; st ← get; mret (t - pa_stamp (marker_position st) <? Duration 1.0).

(** Lines 165-211. *)
Definition offboardMode (fuel : nat) : M F unit :=
  modify (fun st =>
    set_setpoint_pos_NWU
      (mkPoseStamped (ps_stamp (setpoint_pos_NWU st)) (pose (local_position st)))
      st);;
  for_ok 20 publish_spin_sleep;;
  modify (set_arm_cmd_value true);;
  t ← now;
  modify (set_last_request t);;
  while_fuel fuel
    (running ← ok;
     if (running : bool) then st ← get; mret (negb (armed (current_state st)))
     else mret false)
    (st ← get;
     due ← (if negb (String.eqb (mode (current_state st)) "OFFBOARD")
            then request_due else mret false);
     (if (due : bool) then
        call_set_mode;;
        t ← now; modify (set_last_request t)
      else
        st ← get;
        due' ← (if negb (armed (current_state st)) then request_due
                else mret false);
        if (due' : bool) then
          call_arming;;
          t ← now; modify (set_last_request t)
        else mret tt);;
     publish_spin_sleep).

(** Lines 213-233. *)
Definition takeOff : M F unit :=
  modify (fun st =>
    set_pose_NWU
      (mkPoseStamped (ps_stamp (pose_NWU st))
         (mkPose (mkVec3 (f_of_int 2) (f_of_int 2)
                         (f_add (vz (position (pose (local_position st))))
                                (f_lit FLIGHT_ALTITUDE)))
                 (orientation (pose (local_position st)))))
      st);;
  for_ok (iterations (10 * ROS_RATE)) publish_spin_sleep.

(** Lines 235-271. *)
Definition turnTowardsMarker : M F unit :=
  for_ok_break (iterations (5 * ROS_RATE))
    (fresh ← marker_fresh;
     if (fresh : bool) then
       p0 ← poses_0;
       let rad := f_neg (atan2f (vx (position p0)) (vz (position p0))) in
       if f_lt (f_abs rad) (f_lit 0.1) then mret true
       else
         current_yaw ← currentYaw;
         modify (fun st =>
           set_setpoint_pos_NWU
             (mkPoseStamped (ps_stamp (setpoint_pos_NWU st))
                (mkPose (position (pose (local_position st)))
                        (createQuaternionMsgFromYaw (f_add current_yaw rad))))
             st);;
         for_ok (iterations (5 * ROS_RATE)) publish_spin_sleep;;
         mret false
     else spinOnce;; sleep;; mret false).

(** Lines 273-318. *)
Definition approachMarker : M F unit :=
  for_ok_break MAX_ATTEMPTS
    (fresh ← marker_fresh;
     if (fresh : bool) then
       p0 ← poses_0;
       if f_lt (vz (position p0)) (f_lit 0.8) then mret true
       else publish_spin_sleep;; mret false
     else spinOnce;; sleep;; mret false);;
  for_ok (iterations (3 * ROS_RATE)) publish_spin_sleep.

(** Lines 331-336: the retry loop of land. *)
Definition land_retry (fuel : nat) : M F unit :=
  while_fuel fuel (landed ← call_land; mret (negb landed)) publish_spin_sleep.

(** Lines 347-356: the disarm loop of land. *)
Definition land_disarm (fuel : nat) : M F unit :=
  while_fuel fuel
    (running ← ok;
     if (running : bool) then st ← get; mret (armed (current_state st)) else mret false)
    (st ← get;
     due ← (if armed (current_state st) then request_due else mret false);
     (if (due : bool) then
        call_arming;;
        t ← now; modify (set_last_request t)
      else mret tt);;
     spinOnce;; sleep).

(** Lines 320-358. *)
Definition land (fuel : nat) : M F unit :=
  land_retry fuel;;
  for_ok (iterations (5 * ROS_RATE)) (spinOnce;; sleep);;
  modify (set_arm_cmd_value false);;
  land_disarm fuel.

(** Lines 119-163, from the wait for the FCU connection on. *)
Definition main (fuel : nat) : M F unit :=
  while_fuel fuel
    (running ← ok;
     if (running : bool) then st ← get; mret (connected (current_state st))
     else mret false)
    (spinOnce;; sleep);;
  offboardMode fuel;;
  takeOff;;
  turnTowardsMarker;;
  approachMarker;;
  land fuel.

(** *** Predicates used to state the properties of the node *)

(** A marker array that is still fresh when the loop looks at it. *)
Definition fresh_at (st : Node F) : Prop :=
  ros_now env (n_now st) - pa_stamp (marker_position st) < Duration 1.0.

(** The part of the state no callback writes. *)
Definition callback_frame (st : Node F) :=
  (pose_NWU st, last_request st, arm_cmd_value st, published st,
   n_ok st, n_spin st, n_set_mode st, n_arming st, n_land st).

(** The marker callback has no target to install: the array is not empty
    and the look-up of target_position throws. *)
Definition no_target (m : Msg F) : Prop :=
  match m with
  | MarkerMsg a target => poses a <> [] /\ target = None
  | _ => True
  end.

(** Every marker array in the queue has a first pose. *)
Definition has_pose (m : Msg F) : Prop :=
  match m with MarkerMsg a _ => poses a <> [] | _ => True end.

(** [I] survives every run of [c] that returns. *)
Definition preserved {A} (I : Node F -> Prop) (c : M F A) : Prop :=
  forall st a st', I st -> c st = Ok (a, st') -> I st'.

(** The landing service has been called [k] times. *)
Definition land_calls (k : nat) (st : Node F) : Prop := n_land st = k.

(** No marker array in any queue is empty. *)
Definition inbox_safe : Prop := forall k, Forall has_pose (inbox env k).

(** Between the [lo]-th and the [hi]-th ros::spinOnce no marker callback
    gets a target position. *)
Definition quiet (lo hi : nat) : Prop :=
  forall k, (lo <= k < hi)%nat -> Forall no_target (inbox env k).

(** The pose takeOff computes and stores in pose_NWU. *)
Definition takeoff_target (st : Node F) : PoseStamped F :=
  mkPoseStamped (ps_stamp (pose_NWU st))
    (mkPose (mkVec3 (f_of_int 2) (f_of_int 2)
                    (f_add (vz (position (pose (local_position st))))
                           (f_lit FLIGHT_ALTITUDE)))
            (orientation (pose (local_position st)))).

(** The setpoint is [sp] as long as the spin counter has not passed [hi]. *)
Definition holding (sp : PoseStamped F) (lo hi : nat) (st : Node F) : Prop :=
  (lo <= n_spin st)%nat /\ ((n_spin st <= hi)%nat -> setpoint_pos_NWU st = sp).

(** *** Further parts and predicates of the node *)

(** Lines 141-145: the wait for the FCU connection at the head of main. *)
Definition wait_for_connection (fuel : nat) : M F unit :=
  while_fuel fuel
    (running ← ok;
     if (running : bool) then st ← get; mret (connected (current_state st))
     else mret false)
    (spinOnce;; sleep).

(** ros::ok() answers false from the next check on. *)
Definition shut_down (st : Node F) : Prop :=
  forall k, (n_ok st <= k)%nat -> ros_ok env k = false.

Definition not_marker (m : Msg F) : Prop :=
  match m with MarkerMsg _ _ => False | _ => True end.

(** No marker message is ever queued. *)
Definition no_markers : Prop := forall k, Forall not_marker (inbox env k).

(** A marker array stamped [t0] is at least one second old whenever the
    clock is read. *)
Definition stale_at (t0 : Time) : Prop :=
  forall k, Duration 1.0 <= ros_now env k - t0.

(** Setpoints published minus spins made. *)
Definition stream_lead (st : Node F) : Z :=
  Z.of_nat (length (published st)) - Z.of_nat (n_spin st).

(** Setpoints published minus landing requests made. *)
Definition land_lead (st : Node F) : Z :=
  Z.of_nat (length (published st)) - Z.of_nat (n_land st).

(** A setpoint with the header stamp and the orientation of [sp]. *)
Definition same_heading (sp p : PoseStamped F) : Prop :=
  ps_stamp p = ps_stamp sp /\ orientation (pose p) = orientation (pose sp).

(** [c] returns from every state in which [I] holds, and [I] holds again
    in the state it returns. *)
Definition total {A} (I : Node F -> Prop) (c : M F A) : Prop :=
  forall st, I st -> exists a st', c st = Ok (a, st') /\ I st'.

(** A queued message that comes with a first marker pose and does not
    report the vehicle armed. *)
Definition unarmed_msg (m : Msg F) : Prop :=
  match m with
  | StateMsg s => armed s = false
  | MarkerMsg a _ => poses a <> []
  | LocalPositionMsg _ => True
  end.

(** The state last received reports the vehicle not armed. *)
Definition unarmed (st : Node F) : Prop := armed (current_state st) = false.

(** The vehicle never reports armed. *)
Definition never_armed : Prop := forall k, Forall unarmed_msg (inbox env k).

(** Between [st] and [st'] nothing was published or broadcast, no callback
    queue was served and no service was called. *)
Definition untouched (st st' : Node F) : Prop :=
  published st' = published st /\ broadcast st' = broadcast st /\
  n_spin st' = n_spin st /\ n_set_mode st' = n_set_mode st /\
  n_arming st' = n_arming st /\ n_land st' = n_land st.

(** [st] comes after [st0], where the node was already shut down, and
    nothing was sent since. *)
Definition after_shutdown (st0 st : Node F) : Prop :=
  shut_down st0 /\ (n_ok st0 <= n_ok st)%nat /\ untouched st0 st.

(** The setpoint and every setpoint published so far carry the stamp [t]. *)
Definition stamped (t : Time) (st : Node F) : Prop :=
  ps_stamp (setpoint_pos_NWU st) = t /\
  Forall (fun p => ps_stamp p = t) (published st).

(** The setpoint and every setpoint published after [pub0] have the stamp
    and the orientation of [sp]. *)
Definition heading_kept (sp : PoseStamped F) (pub0 : list (PoseStamped F))
    (st : Node F) : Prop :=
  same_heading sp (setpoint_pos_NWU st) /\
  exists new, published st = pub0 ++ new /\ Forall (same_heading sp) new.

End Node.

(** The globals before main runs: default-constructed messages. *)
Definition initial_node {F} `{FloatOps F} : Node F :=
  mkNode zero_pose_stamped zero_pose_stamped 0 false (mkState false false "")
         (mkPoseArray 0 []) zero_pose_stamped [] [] 0 0 0 0 0 0.

End TakeoffNLand.

(** ** An exact instance, to run the model

    Rational arithmetic stands in for the floating-point types, so that the
    definitions above can be evaluated on concrete inputs.  The Ewok classes
    and the angle functions get simple executable stand-ins. *)

Module Sample.
Import DistanceVolume TrajectoryPlanner TakeoffNLand.

Definition dot4 (r p : Vec4 Q) : Q :=
  (v0 r * v0 p + v1 r * v1 p + v2 r * v2 p + v3 r * v3 p)%Q.

(** An affine transform as the three upper rows of its matrix. *)
#[export] Instance EigenOps_Q : EigenOps Q := {
  Affine3f := Vec3 (Vec4 Q);
  affine_apply T p := mkVec4 (dot4 (vx T) p) (dot4 (vy T) p) (dot4 (vz T) p) (v3 p)
}.

(** The translation by (x, y, z). *)
Definition translation_by (x y z : Q) : Affine3f (F := Q) :=
  (mkVec3 (mkVec4 1 0 0 x) (mkVec4 0 1 0 y) (mkVec4 0 0 1 z))%Q.

(** Rays are sampled at the quarter points between origin and end point;
    distances are propagated over radius zero (an occupied voxel is at
    distance 0, every other voxel is far). *)
#[export] Instance RayCarving_Q : RayCarving Q := {
  raycast res o p :=
    (fun k : Z =>
       vmap (fun c => Qfloor (c / res))
            (vzip (fun a b => a + (b - a) * (k # 4)) o p))%Q <$> [0; 1; 2; 3];
  propagate trunc n occs :=
    (fun o => match o with Occupied => 0%Q | _ => trunc end) <$> occs
}.

(** A spline optimisation that records how it was set up. *)
Record SplineSetup := mkSplineSetup {
  sp_traj : list (Vec3 Q);
  sp_dt : Q;
  sp_num_points : Z;
  sp_buffer : option Ptr;
  sp_threshold : Q;
  sp_limits : option (Vec4 Q)
}.

#[export] Instance EwokPlanning_Q : EwokPlanning Q := {
  PolynomialTrajectory3D := list (Vec3 Q);
  UniformBSpline3DOptimization := SplineSetup;
  computeTrajectory limits path := path;
  new_UniformBSpline3DOptimization tr step := mkSplineSetup tr step 0 None 0%Q None;
  setNumControlPointsOptimized n s :=
    mkSplineSetup (sp_traj s) (sp_dt s) n (sp_buffer s) (sp_threshold s) (sp_limits s);
  setDistanceBuffer p s :=
    mkSplineSetup (sp_traj s) (sp_dt s) (sp_num_points s) (Some p)
                  (sp_threshold s) (sp_limits s);
  setDistanceThreshold d s :=
    mkSplineSetup (sp_traj s) (sp_dt s) (sp_num_points s) (sp_buffer s) d (sp_limits s);
  setLimits l s :=
    mkSplineSetup (sp_traj s) (sp_dt s) (sp_num_points s) (sp_buffer s)
                  (sp_threshold s) (Some l)
}.

(** First-order approximations of the angle functions. *)
#[export] Instance AngleOps_Q : AngleOps Q := {
  atan2f y x := if Qeq_bool x 0 then 0%Q else (y / x)%Q;
  f_abs := Qabs;
  createQuaternionMsgFromYaw yaw := mkVec4 0%Q 0%Q (yaw / 2)%Q 1%Q;
  getYaw q := (2 * v2 q)%Q
}.

(** A pose at position (x, y, z) with the identity orientation. *)
Definition pose_at (x y z : Q) : Pose Q := (mkPose (mkVec3 x y z) (mkVec4 0 0 0 1))%Q.

(** *** Concrete inputs *)

(** A volume of 2 x 2 x 2 voxels of 1 m with truncation radius 5 m, a cloud
    of two points and the sensor origin they are seen from. *)
Definition tiny_volume : Volume Q := new_volume 1 1%Q 5%Q.

Definition tiny_cloud : list (Vec4 Q) :=
  [mkVec4 1.5 0.5 0.5 1; mkVec4 0.5 1.5 1.5 1]%Q.

Definition tiny_origin : Vec3 Q := (mkVec3 0.5 0.5 0.5)%Q.

(** A 6 x 5 depth image (row-major); three of the four sampled pixels
    (0,0), (4,0), (0,4), (4,4) carry a range. *)
Definition sample_image : Image :=
  mkImage 6 5 [ 5000; 1; 1; 1; 0;     1;
                1;    1; 1; 1; 1;     1;
                1;    1; 1; 1; 1;     1;
                1;    1; 1; 1; 1;     1;
                2500; 1; 1; 1; 10000; 1 ].

Definition sample_depth_msg : sensor_Image := mkSensorImage 17 (inl sample_image).

(** A listener that knows the vehicle at (1, 2, 0), and one that has no
    transform for any stamp. *)
Definition sample_listener : TransformListener (F := Q) :=
  fun _ => inl (translation_by 1 2 0).

Definition deaf_listener : TransformListener (F := Q) :=
  fun _ => inr "Lookup would require extrapolation into the future"%string.

Definition sample_planner : Planner (F := Q) := main_init 0%nat.

Definition sample_goal : PoseStamped Q := mkPoseStamped 3 (pose_at 5 0 0).

(** The vehicle is armed and in OFFBOARD mode. *)
Definition armed_state : State := mkState true true "OFFBOARD".

Definition armed_node : Node Q := set_current_state armed_state initial_node.

(** Nothing arrives, ROS keeps running, every service call succeeds. *)
Definition env_silent : Env Q :=
  mkEnv (fun _ => true) (fun _ => []) (fun _ => 0)
        (fun _ => (true, true)) (fun _ => (true, true)) (fun _ => (true, true)).

(** The marker array the camera reports: the marker 3 m ahead. *)
Definition marker_ahead : PoseArray Q := mkPoseArray 0 [pose_at 0 0 3].

(** The position and the state of the armed vehicle arrive with the first
    spin.  The marker comes into view at the end of offboardMode: the
    callback of the first marker message (spin 19) finds no transform to
    target_position yet, the callback of the second one (spin 20, the
    first spin of takeOff) gets the target 0.6 m in front of the marker. *)
Definition env_marker_seen : Env Q :=
  mkEnv (fun _ => true)
        (fun k => match k with
                  | 0%nat => [LocalPositionMsg (mkPoseStamped 0 (pose_at 1 2 0));
                              StateMsg armed_state]
                  | 19%nat => [MarkerMsg marker_ahead None]
                  | 20%nat => [MarkerMsg marker_ahead (Some (mkVec3 3.4 2 0)%Q)]
                  | _ => []
                  end)
        (fun _ => 0)
        (fun _ => (true, true)) (fun _ => (true, true)) (fun _ => (true, true)).

(** The landing service succeeds at once; the node is shut down (ros::ok()
    turns false) after 30 checks, and no state message arrives. *)
Definition env_shutdown : Env Q :=
  mkEnv (fun k => (k <? 30)%nat) (fun _ => []) (fun _ => 0)
        (fun _ => (true, true)) (fun _ => (false, false)) (fun _ => (true, true)).

(** The setpoint held by offboardMode from the default local position, and
    the one the marker callback of [env_marker_seen] leaves behind. *)
Definition hold_setpoint : PoseStamped Q := zero_pose_stamped.

Definition moved_setpoint : PoseStamped Q :=
  mkPoseStamped 0 (mkPose (mkVec3 3.4 2 0)%Q (orientation (pose hold_setpoint))).

(** A run of the planner: a position, a frame, a goal, a frame without
    transform, a frame. *)
Definition sample_events : list (Event (F := Q)) :=
  [ LocalPosition (mkPoseStamped 1 (pose_at 1 2 0));
    DepthImage sample_listener sample_depth_msg;
    EndpointPosition sample_goal;
    DepthImage deaf_listener sample_depth_msg;
    DepthImage sample_listener sample_depth_msg ].

(** The clock stands at 5 s: a marker array stamped 0 is stale.  Nothing
    arrives and ROS keeps running. *)
Definition env_late : Env Q :=
  mkEnv (fun _ => true) (fun _ => []) (fun _ => 5000000000)
        (fun _ => (true, true)) (fun _ => (true, true)) (fun _ => (true, true)).

(** The landing service answers the first two requests without success;
    the node is shut down after 30 checks of ros::ok(). *)
Definition env_landing_retried : Env Q :=
  mkEnv (fun k => (k <? 30)%nat) (fun _ => []) (fun _ => 0)
        (fun _ => (true, true)) (fun _ => (true, true))
        (fun k => (true, (2 <=? k)%nat)).

(** The node is shut down and the landing service refuses every request. *)
Definition env_no_landing : Env Q :=
  mkEnv (fun _ => false) (fun _ => []) (fun _ => 0)
        (fun _ => (true, true)) (fun _ => (true, true)) (fun _ => (false, false)).

(** The armed vehicle after 30 checks of ros::ok(). *)
Definition node_after_30 : Node Q := set_n_ok 30 armed_node.

(** The sample image with its last row missing from the buffer. *)
Definition short_image : Image := mkImage 6 5 (take 24 (data sample_image)).

End Sample.

(** * Properties *)

Module Int32Facts.
Import Int32.

Lemma wrap32_in_range z : in_range (wrap32 z).
Proof.
  unfold in_range, wrap32, modulus, half_modulus.
  change (2 ^ 32) with 4294967296. change (2 ^ 31) with 2147483648.
  Z.div_mod_to_equations; lia.
Qed.

(** A zero difference of two [int]s means they are equal. *)
Lemma wrap32_sub_zero a b :
  in_range a -> wrap32 (a - wrap32 b) = 0 -> wrap32 b = a.
Proof.
  unfold in_range, wrap32, modulus, half_modulus.
  change (2 ^ 32) with 4294967296. change (2 ^ 31) with 2147483648.
  intros Ha Hd. Z.div_mod_to_equations; lia.
Qed.

Lemma fits_true z : 0 <= z < half_modulus -> fits z = true.
Proof.
  unfold fits, half_modulus. change (2 ^ 31) with 2147483648. intros Hz.
  apply andb_true_intro. split; [apply Z.leb_le|apply Z.ltb_lt]; lia.
Qed.

End Int32Facts.

Module DistanceVolumeFacts.
Import DistanceVolume.

Section Insertion.
Context {F : Type} `{FloatOps F} `{RayCarving F}.
Variable POW : Z.

Lemma geometry_mark o w (e : Volume F) : geometry (mark POW o w e) = geometry e.
Proof. unfold mark. destruct (insideVolume POW e w); reflexivity. Qed.

Lemma geometry_apply_marks ws : forall e : Volume F, geometry (apply_marks POW ws e) = geometry e.
Proof.
  induction ws as [|ow ws IH]; intros e; [reflexivity|].
  cbn. unfold apply_marks in IH. rewrite IH. apply geometry_mark.
Qed.

Lemma insideVolume_geometry (e e' : Volume F) w :
  geometry e = geometry e' -> insideVolume POW e w = insideVolume POW e' w.
Proof. unfold geometry, insideVolume. intros [= _ _ ->]. reflexivity. Qed.

Lemma toVoxelIndex_geometry (e e' : Volume F) w :
  geometry e = geometry e' -> toVoxelIndex POW e w = toVoxelIndex POW e' w.
Proof. unfold geometry, toVoxelIndex. intros [= _ _ ->]. reflexivity. Qed.

Lemma point_writes_geometry origin (e e' : Volume F) p :
  geometry e = geometry e' -> point_writes POW origin e p = point_writes POW origin e' p.
Proof.
  intros Hg. unfold point_writes, getIdx.
  rewrite (insideVolume_geometry e e') by exact Hg.
  unfold geometry in Hg. injection Hg as -> _ _. reflexivity.
Qed.

Lemma slot_write_geometry (e e' : Volume F) l ow :
  geometry e = geometry e' -> slot_write POW e l ow = slot_write POW e' l ow.
Proof.
  intros Hg. unfold slot_write.
  now rewrite (insideVolume_geometry e e'), (toVoxelIndex_geometry e e').
Qed.

Lemma carve_as_marks origin (e : Volume F) p :
  carve POW origin e p = apply_marks POW (point_writes POW origin e p) e.
Proof.
  unfold carve, point_writes. destruct (insideVolume POW e _); [|reflexivity].
  unfold apply_marks. rewrite foldl_snoc, foldl_fmap. reflexivity.
Qed.

Lemma fmap_occ_alter (o : Occupancy) (f : Voxel F -> Voxel F) (vs : list (Voxel F)) :
  (forall v, occ (f v) = o) ->
  forall i, occ <$> alter f i vs = <[i := o]> (occ <$> vs).
Proof.
  intros Hf. induction vs as [|v vs IH]; intros [|i]; cbn; try reflexivity.
  - now rewrite Hf.
  - f_equal. apply IH.
Qed.

Lemma occupancy_mark o w (e : Volume F) :
  occupancy (mark POW o w e) = slot_write POW e (occupancy e) (o, w).
Proof.
  unfold mark, slot_write, occupancy. cbn [fst snd].
  destruct (insideVolume POW e w); [|reflexivity].
  cbn [voxels]. now apply fmap_occ_alter.
Qed.

Lemma occupancy_apply_marks ws : forall e : Volume F,
  occupancy (apply_marks POW ws e) = foldl (slot_write POW e) (occupancy e) ws.
Proof.
  induction ws as [|[o w] ws IH]; intros e; [reflexivity|].
  cbn [apply_marks foldl]. unfold apply_marks in IH. cbn [fst snd].
  rewrite IH, occupancy_mark.
  clear IH. generalize (slot_write POW e (occupancy e) (o, w)). 
  induction ws as [|ow ws IH]; intros l; [reflexivity|].
  cbn [foldl]. rewrite (slot_write_geometry _ e) by apply geometry_mark. apply IH.
Qed.

Lemma foldl_carve origin (e0 : Volume F) (cloud : list (Vec4 F)) : forall e : Volume F,
  geometry e = geometry e0 ->
  foldl (carve POW origin) e cloud = apply_marks POW (cloud_writes POW origin e0 cloud) e.
Proof.
  induction cloud as [|p cloud IH]; intros e Hg; [reflexivity|].
  cbn [foldl]. unfold cloud_writes. cbn [fmap list_fmap concat].
  unfold apply_marks. rewrite foldl_app. fold (apply_marks POW (point_writes POW origin e0 p) e).
  rewrite carve_as_marks, (point_writes_geometry origin e e0) by exact Hg.
  rewrite IH; [reflexivity|].
  now rewrite geometry_apply_marks.
Qed.

Lemma slot_write_twice (e : Volume F) l a : slot_write POW e (slot_write POW e l a) a = slot_write POW e l a.
Proof.
  unfold slot_write. destruct (insideVolume POW e a.2); [|reflexivity].
  apply list_insert_insert_eq.
Qed.

Lemma slot_write_swap (e : Volume F) l a b :
  slot_write POW e (slot_write POW e l a) b = slot_write POW e (slot_write POW e l b) a \/
  slot_write POW e (slot_write POW e l a) b = slot_write POW e l b.
Proof.
  unfold slot_write.
  destruct (insideVolume POW e a.2), (insideVolume POW e b.2); auto.
  destruct (decide (linear POW (toVoxelIndex POW e b.2) =
                    linear POW (toVoxelIndex POW e a.2))) as [->|Hne].
  - right. apply list_insert_insert_eq.
  - left. now apply list_insert_insert_ne.
Qed.

Lemma slot_write_absorb (e : Volume F) a ws : forall l,
  slot_write POW e (foldl (slot_write POW e) (slot_write POW e l a) ws) a =
  slot_write POW e (foldl (slot_write POW e) l ws) a.
Proof.
  induction ws as [|b ws IH]; intros l; cbn [foldl].
  - apply slot_write_twice.
  - destruct (slot_write_swap e l a b) as [-> | ->]; [apply IH|reflexivity].
Qed.

Lemma slot_writes_idempotent (e : Volume F) ws : forall l,
  foldl (slot_write POW e) (foldl (slot_write POW e) l ws) ws = foldl (slot_write POW e) l ws.
Proof.
  induction ws as [|a ws IH] using rev_ind; intros l; [reflexivity|].
  rewrite !foldl_snoc, slot_write_absorb, IH. reflexivity.
Qed.

Lemma foldl_slot_write_geometry (e e' : Volume F) ws : forall l,
  geometry e = geometry e' ->
  foldl (slot_write POW e) l ws = foldl (slot_write POW e') l ws.
Proof.
  induction ws as [|a ws IH]; intros l Hg; [reflexivity|].
  cbn [foldl]. rewrite (slot_write_geometry e e') by exact Hg. now apply IH.
Qed.

Lemma occupancy_updateDistance (e : Volume F) : occupancy (updateDistance POW e) = occupancy e.
Proof.
  unfold occupancy, updateDistance. cbn [voxels]. rewrite fmap_imap.
  rewrite (imap_ext _ (fun _ v => occ v)) by reflexivity.
  apply imap_const.
Qed.

Lemma distances_updateDistance (e : Volume F) :
  distances (updateDistance POW e) =
  imap (fun k (_ : Occupancy) =>
          default (truncation e)
                  (propagate (truncation e) (N POW) (occupancy e) !! k))
       (occupancy e).
Proof.
  unfold distances, updateDistance, occupancy. cbn [voxels].
  rewrite fmap_imap, imap_fmap. reflexivity.
Qed.

Lemma geometry_updateDistance (e : Volume F) : geometry (updateDistance POW e) = geometry e.
Proof. reflexivity. Qed.

Lemma geometry_insertPointCloud cloud origin (e : Volume F) :
  geometry (insertPointCloud POW cloud origin e) = geometry e.
Proof.
  unfold insertPointCloud. cbn zeta.
  change (geometry (updateDistance POW (foldl (carve POW origin) e cloud)) = geometry e).
  rewrite geometry_updateDistance, (foldl_carve origin e) by reflexivity.
  apply geometry_apply_marks.
Qed.

Lemma occupancy_insertPointCloud cloud origin (e : Volume F) :
  occupancy (insertPointCloud POW cloud origin e) =
  foldl (slot_write POW e) (occupancy e) (cloud_writes POW origin e cloud).
Proof.
  unfold insertPointCloud. cbn zeta.
  change (occupancy (updateDistance POW (foldl (carve POW origin) e cloud)) =
          foldl (slot_write POW e) (occupancy e) (cloud_writes POW origin e cloud)).
  rewrite occupancy_updateDistance, (foldl_carve origin e) by reflexivity.
  apply occupancy_apply_marks.
Qed.

Lemma distances_insertPointCloud cloud origin (e : Volume F) :
  distances (insertPointCloud POW cloud origin e) =
  let occs := occupancy (insertPointCloud POW cloud origin e) in
  imap (fun k (_ : Occupancy) =>
          default (truncation e) (propagate (truncation e) (N POW) occs !! k))
       occs.
Proof.
  cbn zeta. unfold insertPointCloud at 1. cbn zeta.
  change (distances (updateDistance POW (foldl (carve POW origin) e cloud)) = 
    imap (fun k (_ : Occupancy) =>
          default (truncation e) (propagate (truncation e) (N POW) (occupancy (insertPointCloud POW cloud origin e)) !! k))
       (occupancy (insertPointCloud POW cloud origin e))).
  rewrite distances_updateDistance.
  assert (Hg : geometry (foldl (carve POW origin) e cloud) = geometry e).
  { rewrite (foldl_carve origin e) by reflexivity. apply geometry_apply_marks. }
  assert (Ho : occupancy (insertPointCloud POW cloud origin e) =
               occupancy (foldl (carve POW origin) e cloud)).
  { unfold insertPointCloud. cbn zeta.
    change (occupancy (updateDistance POW (foldl (carve POW origin) e cloud)) = occupancy (foldl (carve POW origin) e cloud)).
    apply occupancy_updateDistance. }
  rewrite Ho. unfold geometry in Hg. injection Hg as _ -> _. reflexivity.
Qed.

(** C7: inserting the same point cloud from the same origin twice in a
    row leaves the occupancy and the distance of every voxel as one
    insertion does (and the window where it was). *)
Theorem insertPointCloud_idempotent (cloud : list (Vec4 F)) (origin : Vec3 F)
    (e : Volume F) :
  let once := insertPointCloud POW cloud origin e in
  let twice := insertPointCloud POW cloud origin once in
  occ <$> voxels twice = occ <$> voxels once /\
  dist <$> voxels twice = dist <$> voxels once /\
  offset twice = offset once.
Proof.
  cbn zeta.
  pose proof (geometry_insertPointCloud cloud origin e) as Hg.
  pose proof (occupancy_insertPointCloud cloud origin e) as Ho1.
  pose proof (distances_insertPointCloud cloud origin e) as Hd1.
  remember (insertPointCloud POW cloud origin e) as once eqn:Eonce.
  pose proof (geometry_insertPointCloud cloud origin once) as Hg2.
  pose proof (occupancy_insertPointCloud cloud origin once) as Ho2.
  pose proof (distances_insertPointCloud cloud origin once) as Hd2.
  remember (insertPointCloud POW cloud origin once) as twice eqn:Etwice.
  clear Eonce Etwice. cbn zeta in Hd1, Hd2.
  assert (Hocc : occupancy twice = occupancy once).
  { rewrite Ho2. unfold cloud_writes.
    rewrite (list_fmap_ext (point_writes POW origin once) (point_writes POW origin e) cloud)
      by (intros; now apply point_writes_geometry).
    fold (cloud_writes POW origin e cloud).
    rewrite (foldl_slot_write_geometry once e) by exact Hg.
    rewrite Ho1. apply slot_writes_idempotent. }
  split; [exact Hocc|]. split.
  - change (distances twice = distances once).
    rewrite Hd2, Hd1, Hocc.
    unfold geometry in Hg. injection Hg as _ -> _. reflexivity.
  - unfold geometry in Hg2. now injection Hg2.
Qed.

(** *** The number of voxels *)

Lemma length_new_volume (res trunc : F) :
  Z.of_nat (length (voxels (new_volume POW res trunc))) = (2 ^ POW) ^ 3.
Proof.
  unfold new_volume, voxel_count, N. cbn [voxels]. rewrite length_replicate.
  assert (0 <= 2 ^ POW) by (apply Z.pow_nonneg; lia).
  rewrite Z2Nat.id by nia. ring.
Qed.

Lemma length_clearLayer a layer (e : Volume F) :
  length (voxels (clearLayer POW a layer e)) = length (voxels e).
Proof. unfold clearLayer. cbn [voxels]. apply length_imap. Qed.

Lemma length_shiftAxis a d (e : Volume F) :
  length (voxels (shiftAxis POW a d e)) = length (voxels e).
Proof.
  unfold shiftAxis. cbn zeta.
  destruct (0 <? d); [apply length_clearLayer|].
  destruct (d <? 0); [apply length_clearLayer|reflexivity].
Qed.

Lemma length_moveVolume d (e : Volume F) :
  length (voxels (moveVolume POW d e)) = length (voxels e).
Proof. unfold moveVolume. cbn [voxels]. now rewrite !length_shiftAxis. Qed.

Lemma length_occupancy (e : Volume F) : length (occupancy e) = length (voxels e).
Proof. apply length_fmap. Qed.

Lemma length_slot_write (e : Volume F) l ow :
  length (slot_write POW e l ow) = length l.
Proof.
  unfold slot_write.
  destruct (insideVolume POW e ow.2); [apply length_insert|reflexivity].
Qed.

Lemma length_insertPointCloud cloud origin (e : Volume F) :
  length (voxels (insertPointCloud POW cloud origin e)) = length (voxels e).
Proof.
  rewrite <- !length_occupancy, occupancy_insertPointCloud.
  generalize (occupancy e) as l.
  induction (cloud_writes POW origin e cloud) as [|ow ws IH]; intros l; [reflexivity|].
  cbn [foldl]. rewrite IH. apply length_slot_write.
Qed.

End Insertion.
End DistanceVolumeFacts.

Module TrajectoryPlannerFacts.
Import DistanceVolume TrajectoryPlanner DistanceVolumeFacts.

Section Recenter.
Context {F : Type} `{FloatOps F} `{RayCarving F} `{EigenOps F} `{EwokPlanning F}.

Lemma recenter_unfold (g : Vector3i) (e : Volume F) :
  recenter g e =
  if vany (center_diff g e) then recenter g (recenter_body g e) else e.
Proof.
  rewrite recenter_equation_1.
  destruct (inspect (vany (center_diff g e))) as [[|] E]; cbn; rewrite E; reflexivity.
Qed.

Lemma iter_body_shift (g : Vector3i) (n : nat) (e : Volume F) :
  Nat.iter n (recenter_body g) (recenter_body g e) = Nat.iter (S n) (recenter_body g) e.
Proof. symmetry. apply Nat.iter_succ_r. Qed.

Lemma recenter_runs (g : Vector3i) (e : Volume F) :
  exists n : nat,
    recenter g e = Nat.iter n (recenter_body g) e /\
    (forall k, (k < n)%nat -> vany (center_diff g (Nat.iter k (recenter_body g) e)) = true) /\
    vany (center_diff g (recenter g e)) = false.
Proof.
  funelim (recenter g e).
  - destruct H3 as (n & Hr & Hk & Hex).
    exists (S n). split; [|split].
    + rewrite Hr. apply iter_body_shift.
    + intros [|k] Hlt; [exact e1|].
      rewrite <- iter_body_shift. apply Hk. lia.
    + exact Hex.
  - exists 0%nat. split; [reflexivity|]. split; [intros k Hk; lia|exact e1].
Qed.

Lemma center_diff_zero (g : Vector3i) (e : Volume F) :
  vec_in_range g -> vany (center_diff g e) = false -> getVolumeCenter POW e = g.
Proof.
  destruct g as [gx gy gz], e as [r t [ox oy oz] vs ck].
  unfold vec_in_range, vany, center_diff, vsub, vzip, getVolumeCenter, vmap.
  cbn [vx vy vz offset]. intros (Hx & Hy & Hz) Hd.
  apply orb_false_elim in Hd as [Hd Hdz]. apply orb_false_elim in Hd as [Hdx Hdy].
  apply negb_false_iff, Z.eqb_eq in Hdx, Hdy, Hdz.
  f_equal; now apply Int32Facts.wrap32_sub_zero.
Qed.

(** The loop exits centred on any target index an [int] vector can hold. *)
Lemma recenter_reaches (origin_idx : Vector3i) (e : Volume F) :
  vec_in_range origin_idx ->
  exists n : nat,
    recenter origin_idx e = Nat.iter n (recenter_body origin_idx) e /\
    (forall k, (k < n)%nat ->
       vany (center_diff origin_idx (Nat.iter k (recenter_body origin_idx) e)) = true) /\
    vany (center_diff origin_idx (recenter origin_idx e)) = false /\
    getVolumeCenter POW (recenter origin_idx e) = origin_idx.
Proof.
  intros Hg. destruct (recenter_runs origin_idx e) as (n & Hr & Hk & Hex).
  exists n. repeat split; try assumption.
  now apply center_diff_zero.
Qed.

Lemma getIdx_in_range (e : Volume F) (origin : Vec3 F) : vec_in_range (getIdx e origin).
Proof.
  unfold getIdx, vmap, vec_in_range. cbn [vx vy vz].
  repeat split; apply Int32Facts.wrap32_in_range.
Qed.


End Recenter.

Section DepthProjector.
Context {F : Type} `{FloatOps F} `{EigenOps F}.

Lemma NoDup_list_prod {A B} (l : list A) (k : list B) :
  NoDup l -> NoDup k -> NoDup (list_prod l k).
Proof.
  intros Hl Hk. induction Hl as [|a l Ha Hl IH]; cbn [list_prod]; [constructor|].
  apply NoDup_app. split; [|split; [|exact IH]].
  - apply NoDup_fmap_2; [|exact Hk]. intros x y Hxy. congruence.
  - intros [a' b'] Hin Hin'.
    apply list_elem_of_fmap in Hin as (b & Heq & _). inversion Heq; subst.
    rewrite <- list_cprod_list_prod in Hin'.
    apply list_elem_of_cprod in Hin' as [Hin' _]. cbn in Hin'. contradiction.
Qed.

Lemma fold_opt_ext {A} (f g : Z -> A -> option A) (l : list Z) :
  (forall i acc, f i acc = g i acc) -> forall acc, fold_opt f l acc = fold_opt g l acc.
Proof.
  intros Hfg. induction l as [|i l IH]; intros acc; cbn; [reflexivity|].
  rewrite Hfg. destruct (g i acc); auto.
Qed.

Lemma for_stride4_unfold {A} bound (body : Z -> A -> option A) i acc :
  for_stride4 bound body i acc =
  if i <? bound
  then match body i acc with
       | Some acc' =>
           if Int32.fits (i + 4) then for_stride4 bound body (i + 4) acc'
           else None
       | None => None
       end
  else Some acc.
Proof.
  funelim (for_stride4 bound body i acc);
    repeat match goal with
           | E : (_ <? _) = _ |- _ => rewrite E
           | E : body _ _ = _ |- _ => rewrite E
           | E : Int32.fits _ = _ |- _ => rewrite E
           end; reflexivity.
Qed.

Lemma for_stride4_seq {A} bound (body : Z -> A -> option A) (n : nat) :
  forall (k : Z) (acc : A),
    0 <= k -> 4 * (k + Z.of_nat n) < Int32.half_modulus ->
    bound <= 4 * (k + Z.of_nat n) ->
    ((0 < n)%nat -> 4 * (k + Z.of_nat n - 1) < bound) ->
    for_stride4 bound body (4 * k) acc =
    fold_opt body ((fun j => 4 * j) <$> seqZ k (Z.of_nat n)) acc.
Proof.
  induction n as [|n IH]; intros k acc Hk Hint Hup Hlow.
  - rewrite for_stride4_unfold.
    destruct (Z.ltb_spec (4 * k) bound); [lia|reflexivity].
  - rewrite for_stride4_unfold.
    destruct (Z.ltb_spec (4 * k) bound); [|lia].
    rewrite seqZ_cons by lia. cbn [fmap list_fmap fold_opt].
    destruct (body (4 * k) acc) as [acc'|]; [|reflexivity].
    rewrite Int32Facts.fits_true by lia.
    replace (4 * k + 4) with (4 * Z.succ k) by lia.
    replace (Z.pred (Z.of_nat (S n))) with (Z.of_nat n) by lia.
    apply IH; lia.
Qed.

Lemma for_stride4_strided {A} bound (body : Z -> A -> option A) (acc : A) :
  bound + 3 < Int32.half_modulus ->
  for_stride4 bound body 0 acc = fold_opt body (strided bound) acc.
Proof.
  intros Hint. unfold strided.
  destruct (Z.le_gt_cases bound 0) as [Hb|Hb].
  - rewrite for_stride4_unfold.
    destruct (Z.ltb_spec 0 bound); [lia|].
    replace ((bound + 3) / 4) with (Z.of_nat 0 + (bound + 3) / 4) by lia.
    assert ((bound + 3) / 4 <= 0) by (Z.div_mod_to_equations; lia).
    unfold seqZ. replace (Z.to_nat _) with 0%nat by lia. reflexivity.
  - change 0 with (4 * 0) at 1.
    replace ((bound + 3) / 4) with (Z.of_nat (Z.to_nat ((bound + 3) / 4)))
      by (Z.div_mod_to_equations; lia).
    apply for_stride4_seq; [lia| | |intros _]; Z.div_mod_to_equations; lia.
Qed.

Lemma elem_of_strided bound i :
  i ∈ strided bound <-> 0 <= i < bound /\ i mod 4 = 0.
Proof.
  unfold strided. rewrite list_elem_of_fmap. split.
  - intros (k & -> & Hk). apply elem_of_seqZ in Hk.
    Z.div_mod_to_equations; lia.
  - intros (Hi & Hm). exists (i / 4). split.
    + Z.div_mod_to_equations; lia.
    + apply elem_of_seqZ. Z.div_mod_to_equations; lia.
Qed.

Lemma NoDup_strided bound : NoDup (strided bound).
Proof.
  unfold strided. apply NoDup_fmap_2; [|apply NoDup_seqZ].
  intros x y Hxy. lia.
Qed.

Lemma range_sample_inside img u v :
  0 <= u < cols img -> 0 <= v < rows img ->
  range_sample img u v = default 0 (data img !! Z.to_nat (v * cols img + u)).
Proof.
  intros Hu Hv. unfold range_sample.
  destruct (Z.leb_spec 0 u); [|lia]. destruct (Z.ltb_spec u (cols img)); [|lia].
  destruct (Z.leb_spec 0 v); [|lia]. destruct (Z.ltb_spec v (rows img)); [|lia].
  reflexivity.
Qed.

(** Inside a well-formed image the code reads the range sample of the
    pixel, a 16-bit value. *)
Lemma pixel_defined img u v :
  wf_image img -> 0 <= u < cols img -> 0 <= v < rows img ->
  pixel img u v = Some (range_sample img u v) /\
  0 <= range_sample img u v < 65536.
Proof.
  intros (Hc & Hr & Hlen & Hall & _ & _ & Hprod) Hu Hv.
  rewrite range_sample_inside by assumption. unfold pixel. cbv zeta.
  rewrite !Int32Facts.fits_true by nia. cbn [andb].
  destruct (Z.ltb_spec (v * cols img + u) 0) as [Hneg|_]; [nia|].
  destruct (lookup_lt_is_Some_2 (data img) (Z.to_nat (v * cols img + u))) as [x Hx].
  { nia. }
  rewrite Hx. cbn [default from_option]. split; [reflexivity|].
  rewrite Forall_forall in Hall. apply Hall. eapply list_elem_of_lookup_2, Hx.
Qed.

Lemma inner_loop T_w_c img u (vs : list Z) : forall acc,
  wf_image img -> 0 <= u < cols img -> (forall v, v ∈ vs -> 0 <= v < rows img) ->
  fold_opt (fun v c => depth_pixel T_w_c img u v c) vs acc =
  Some (acc ++ (world_point T_w_c img <$> filter (valid_sample img) (pair u <$> vs))).
Proof.
  induction vs as [|v vs IH]; intros acc Hwf Hu Hvs; cbn [fold_opt].
  - cbn. now rewrite app_nil_r.
  - destruct (pixel_defined img u v Hwf Hu) as (Hx & Hrange).
    { apply Hvs. left. }
    unfold depth_pixel at 1. rewrite Hx.
    cbn [fmap list_fmap]. rewrite filter_cons.
    destruct (Z.ltb_spec 0 (range_sample img u v)) as [Hpos|Hzero].
    + rewrite IH; auto; [|intros; apply Hvs; now right].
      destruct (decide (valid_sample img (u, v))) as [_|Hn].
      * rewrite <- app_assoc. cbn [app fmap list_fmap].
        unfold world_point at 2, project, pinhole, depth_of_range.
        cbn [fst snd]. reflexivity.
      * exfalso. apply Hn. unfold valid_sample. cbn [fst snd]. lia.
    + rewrite IH; auto; [|intros; apply Hvs; now right].
      destruct (decide (valid_sample img (u, v))) as [Hy|_]; [|reflexivity].
      exfalso. unfold valid_sample in Hy. cbn [fst snd] in Hy. lia.
Qed.

Lemma outer_loop T_w_c img (us : list Z) : forall acc,
  wf_image img -> (forall u, u ∈ us -> 0 <= u < cols img) ->
  fold_opt (fun u cloud1 =>
              fold_opt (fun v c => depth_pixel T_w_c img u v c)
                       (strided (rows img)) cloud1) us acc =
  Some (acc ++ (world_point T_w_c img <$>
                filter (valid_sample img) (list_prod us (strided (rows img))))).
Proof.
  induction us as [|u us IH]; intros acc Hwf Hus; cbn [fold_opt list_prod].
  - cbn. now rewrite app_nil_r.
  - rewrite inner_loop; auto.
    + rewrite IH; auto; [|intros; apply Hus; now right].
      rewrite filter_app, fmap_app, app_assoc. reflexivity.
    + apply Hus. left.
    + intros v Hv. apply elem_of_strided in Hv. lia.
Qed.

(** The cloud is the image of the sampled pixels with a non-zero range, in
    the order the loops visit them. *)
Lemma build_cloud_grid (T_w_c : Affine3f) (img : Image) :
  wf_image img ->
  build_cloud T_w_c img =
  Some (world_point T_w_c img <$>
        filter (valid_sample img)
               (list_prod (strided (cols img)) (strided (rows img)))).
Proof.
  intros Hwf. pose proof Hwf as (_ & _ & _ & _ & Hcb & Hrb & _).
  unfold build_cloud. rewrite for_stride4_strided by exact Hcb.
  erewrite (fold_opt_ext _ _ (strided (cols img))).
  - rewrite outer_loop; auto. intros u Hu. apply elem_of_strided in Hu. lia.
  - intros u c. now apply for_stride4_strided.
Qed.

(** C3: the point cloud built by depth_cam_cb holds exactly one point for
    each pixel (u, v) with u and v multiples of 4 whose range sample is
    non-zero, namely T applied to the pinhole back-projection of the pixel
    at depth raw/5000; pixels with a zero sample contribute nothing. *)
Theorem build_cloud_pinhole (T_w_c : Affine3f) (img : Image) :
  wf_image img ->
  exists pixels : list (Z * Z),
    NoDup pixels /\
    (forall u v, (u, v) ∈ pixels <->
       0 <= u < cols img /\ u mod 4 = 0 /\
       0 <= v < rows img /\ v mod 4 = 0 /\
       range_sample img u v <> 0) /\
    build_cloud T_w_c img = Some (world_point T_w_c img <$> pixels).
Proof.
  intros Hwf.
  exists (filter (valid_sample img) (list_prod (strided (cols img)) (strided (rows img)))).
  split; [|split].
  - apply NoDup_filter, NoDup_list_prod; apply NoDup_strided.
  - intros u v. rewrite list_elem_of_filter, <- list_cprod_list_prod, list_elem_of_cprod.
    cbn [fst snd]. rewrite !elem_of_strided. unfold valid_sample. cbn [fst snd]. tauto.
  - now apply build_cloud_grid.
Qed.

End DepthProjector.



Section Callbacks.
Context {F : Type} `{FloatOps F} `{RayCarving F} `{EigenOps F} `{EwokPlanning F}.

(** C2: when the transform look-up for the frame's stamp throws,
    depth_cam_cb returns at once and every global keeps its value: the
    ring buffer (occupancy, distances, offset) and the initialized flag;
    it only logs. *)
Theorem depth_cam_cb_drops_frame (listener : TransformListener)
    (msg : sensor_Image) (st : Planner) (what : string) :
  listener (stamp msg) = inr what ->
  exists log, depth_cam_cb listener msg st = Some (st, log).
Proof.
  intros Hfail. unfold depth_cam_cb.
  destruct (toCvShare msg) as [img|err]; [|eauto].
  rewrite Hfail. eauto.
Qed.

(** C6: the spline optimisation installed by endpoint_position_cb is
    determined by the goal message, the current local position, the
    distance-buffer pointer and the node's constants; whatever trajectory
    or optimisation state was there before does not enter it. *)
Theorem endpoint_position_cb_rebuilds (msg : PoseStamped F) (s1 s2 : Planner) :
  position (pose (local_position s1)) = position (pose (local_position s2)) ->
  edrb s1 = edrb s2 ->
  is_Some (spline_optimization (endpoint_position_cb msg s1)) /\
  spline_optimization (endpoint_position_cb msg s1) =
  spline_optimization (endpoint_position_cb msg s2) /\
  traj (endpoint_position_cb msg s1) = traj (endpoint_position_cb msg s2).
Proof.
  intros Hpos Hptr. unfold endpoint_position_cb. cbn.
  rewrite Hpos, Hptr. split; [eauto|]. split; reflexivity.
Qed.

Lemma length_recenter (g : Vector3i) (e : Volume F) :
  length (voxels (recenter g e)) = length (voxels e).
Proof.
  funelim (recenter g e); [|reflexivity].
  match goal with IH : length _ = length _ |- _ => rewrite IH end.
  apply length_moveVolume.
Qed.

Lemma voxels_held_depth_cam_cb listener msg st st' log :
  depth_cam_cb listener msg st = Some (st', log) -> voxels_held st' = voxels_held st.
Proof.
  unfold depth_cam_cb, voxels_held.
  destruct (toCvShare msg) as [img|err]; [|intros [= <- _]; reflexivity].
  destruct (listener (stamp msg)) as [T|err]; [|intros [= <- _]; reflexivity].
  destruct (build_cloud T img) as [cloud1|]; [|discriminate].
  destruct (negb (initialized st)); intros [= <- _]; cbn [edrb_obj with_volume];
    rewrite length_insertPointCloud; [reflexivity|].
  now rewrite length_recenter.
Qed.

Lemma voxels_held_dispatch ev st st' :
  dispatch ev st = Some st' -> voxels_held st' = voxels_held st.
Proof.
  destruct ev as [msg|msg|listener msg]; cbn.
  - intros [= <-]. reflexivity.
  - intros [= <-]. reflexivity.
  - destruct (depth_cam_cb listener msg st) as [[st1 log]|] eqn:E; [|discriminate].
    intros [= <-]. eapply voxels_held_depth_cam_cb, E.
Qed.

Lemma dispatch_wf ev (st : Planner) :
  wf_event ev -> exists st', dispatch ev st = Some st'.
Proof.
  destruct ev as [msg|msg|listener msg]; cbn [dispatch wf_event]; eauto.
  intros Hwf. unfold depth_cam_cb.
  destruct (toCvShare msg) as [img|err]; [|cbn; eauto].
  destruct (listener (stamp msg)) as [T|err]; [|cbn; eauto].
  rewrite (build_cloud_grid T img Hwf).
  destruct (negb (initialized st)); cbn; eauto.
Qed.

Lemma spin_voxels_held (evs : list Event) : forall st : Planner,
  Forall wf_event evs ->
  exists st', spin evs st = Some st' /\ voxels_held st' = voxels_held st.
Proof.
  induction evs as [|ev evs IH]; intros st Hall; cbn [spin]; [eauto|].
  inversion Hall as [|? ? Hev Hevs]; subst.
  destruct (dispatch_wf ev st Hev) as (st1 & Hst1). rewrite Hst1.
  destruct (IH st1 Hevs) as (st' & Hrun & Hheld).
  exists st'. split; [exact Hrun|]. rewrite Hheld.
  eapply voxels_held_dispatch, Hst1.
Qed.

(** C4: whatever depth frames, goals and positions arrive once main has
    allocated the ring buffer, the callbacks run through and the buffer
    holds (2^POW)^3 voxels, with POW = 6. *)
Theorem voxel_count_constant (p : Ptr) (evs : list Event) :
  Forall wf_event evs ->
  exists st, spin evs (main_init p) = Some st /\
    voxels_held st = (2 ^ POW) ^ 3 /\ (2 ^ POW) ^ 3 = 262144.
Proof.
  intros Hall. destruct (spin_voxels_held evs (main_init p) Hall) as (st & Hrun & Hheld).
  exists st. split; [exact Hrun|]. split; [|reflexivity].
  rewrite Hheld. unfold voxels_held, main_init. cbn [edrb_obj].
  apply length_new_volume.
Qed.

End Callbacks.

End TrajectoryPlannerFacts.

Module TakeoffNLandFacts.
Import TakeoffNLand.

Section Node.
Context {F : Type} `{FloatOps F} `{AngleOps F}.
Variable env : Env F.

(** *** Sequencing *)

Lemma bind_Ok {A B} (c : M F A) (k : A -> M F B) st r :
  (c ≫= k) st = Ok r <-> exists a st1, c st = Ok (a, st1) /\ k a st1 = Ok r.
Proof.
  unfold mbind, M_bind. split.
  - destruct (c st) as [[a st1]| |]; try discriminate. eauto.
  - intros (a & st1 & -> & Hk). exact Hk.
Qed.

Lemma bind_Fault {A B} (c : M F A) (k : A -> M F B) st :
  c st = Fault -> (c ≫= k) st = Fault.
Proof. unfold mbind, M_bind. now intros ->. Qed.

Lemma bind_step {A B} (c : M F A) (k : A -> M F B) st a st1 :
  c st = Ok (a, st1) -> (c ≫= k) st = k a st1.
Proof. unfold mbind, M_bind. now intros ->. Qed.

(** *** Reading poses[0] *)

Lemma marker_position_cb_empty (msg : PoseArray F) target (st : Node F) :
  poses msg = [] -> marker_position_cb env msg target st = Fault.
Proof.
  intros Hnil. unfold marker_position_cb, poses_0, modify, now, get, fault.
  unfold mbind, M_bind. cbn. rewrite Hnil. reflexivity.
Qed.

Lemma marker_position_cb_nonempty (msg : PoseArray F) target (st : Node F) :
  poses msg <> [] -> exists st', marker_position_cb env msg target st = Ok (tt, st').
Proof.
  intros Hne. unfold marker_position_cb, poses_0, modify, now, get, fault, sendTransform.
  unfold mbind, M_bind. cbn. destruct (poses msg) as [|p ps]; [contradiction|].
  destruct target; cbn; eauto.
Qed.

Lemma iterations_5s : iterations (5 * ROS_RATE) = 100%nat.
Proof. reflexivity. Qed.

Lemma iterations_10s : iterations (10 * ROS_RATE) = 200%nat.
Proof. reflexivity. Qed.

Lemma marker_fresh_true (st : Node F) :
  fresh_at env st ->
  marker_fresh env st = Ok (true, set_n_now (S (n_now st)) st).
Proof.
  unfold fresh_at. intros Hf. apply Z.ltb_lt in Hf.
  unfold marker_fresh, now, get, mbind, M_bind, mret, M_ret. cbv beta iota.
  cbn [marker_position set_n_now]. rewrite Hf. reflexivity.
Qed.

Lemma poses_0_empty (st : Node F) : poses (marker_position st) = [] -> poses_0 st = Fault.
Proof. intros Hnil. unfold poses_0, get, mbind, M_bind. cbn. now rewrite Hnil. Qed.

Lemma turnTowardsMarker_empty (st : Node F) :
  ros_ok env (n_ok st) = true -> fresh_at env st -> poses (marker_position st) = [] ->
  turnTowardsMarker env st = Fault.
Proof.
  intros Hok Hfresh Hnil. unfold turnTowardsMarker.
  rewrite iterations_5s. cbn [for_ok_break].
  rewrite (bind_step _ _ st true (set_n_ok (S (n_ok st)) st))
    by (unfold ok; now rewrite Hok).
  cbn beta iota. apply bind_Fault.
  erewrite bind_step by (apply marker_fresh_true; exact Hfresh).
  cbn beta iota. apply bind_Fault, poses_0_empty. exact Hnil.
Qed.

Lemma approachMarker_empty (st : Node F) :
  ros_ok env (n_ok st) = true -> fresh_at env st -> poses (marker_position st) = [] ->
  approachMarker env st = Fault.
Proof.
  intros Hok Hfresh Hnil. unfold approachMarker. apply bind_Fault.
  unfold MAX_ATTEMPTS. cbn [for_ok_break].
  rewrite (bind_step _ _ st true (set_n_ok (S (n_ok st)) st))
    by (unfold ok; now rewrite Hok).
  cbn beta iota. apply bind_Fault.
  erewrite bind_step by (apply marker_fresh_true; exact Hfresh).
  cbn beta iota. apply bind_Fault, poses_0_empty. exact Hnil.
Qed.

(** *** What the callbacks leave alone *)

Lemma dispatch_frame (m : Msg F) (st st' : Node F) :
  dispatch env m st = Ok (tt, st') -> callback_frame st' = callback_frame st.
Proof.
  destruct m as [s|a target|p]; cbn [dispatch].
  - unfold state_cb, modify. intros [= <-]. reflexivity.
  - unfold marker_position_cb, poses_0, modify, now, get, fault, sendTransform,
      mbind, M_bind, mret, M_ret. cbn.
    destruct (poses a) as [|p0 ps]; [discriminate|].
    destruct target; cbn; intros [= <-]; reflexivity.
  - unfold local_position_cb, modify, now, sendTransform, mbind, M_bind. cbn.
    intros [= <-]. reflexivity.
Qed.

Lemma dispatch_all_frame (ms : list (Msg F)) : forall st st' : Node F,
  dispatch_all env ms st = Ok (tt, st') -> callback_frame st' = callback_frame st.
Proof.
  induction ms as [|m ms IH]; intros st st'; cbn [dispatch_all].
  - intros [= <-]. reflexivity.
  - intros Hrun. apply bind_Ok in Hrun as ([] & st1 & Hm & Hrest).
    rewrite (IH _ _ Hrest). eapply dispatch_frame, Hm.
Qed.

Lemma spinOnce_Ok (st st' : Node F) :
  spinOnce env st = Ok (tt, st') <->
  dispatch_all env (inbox env (n_spin st)) (set_n_spin (S (n_spin st)) st) = Ok (tt, st').
Proof. reflexivity. Qed.

Lemma dispatch_has_pose (m : Msg F) (st : Node F) :
  has_pose m -> exists st', dispatch env m st = Ok (tt, st').
Proof.
  destruct m as [s|a target|p]; cbn [dispatch has_pose]; intros Hp.
  - unfold state_cb, modify. eauto.
  - now apply marker_position_cb_nonempty.
  - unfold local_position_cb, modify, now, sendTransform, mbind, M_bind. cbn. eauto.
Qed.

Lemma dispatch_all_has_pose (ms : list (Msg F)) : forall st : Node F,
  Forall has_pose ms -> exists st', dispatch_all env ms st = Ok (tt, st').
Proof.
  induction ms as [|m ms IH]; intros st Hall; cbn [dispatch_all].
  - unfold mret, M_ret. eauto.
  - inversion Hall as [|? ? Hm Hms]; subst.
    destruct (dispatch_has_pose m st Hm) as (st1 & Hst1).
    rewrite (bind_step _ _ _ _ _ Hst1). apply IH, Hms.
Qed.

Lemma dispatch_no_target (m : Msg F) (st st' : Node F) :
  no_target m -> dispatch env m st = Ok (tt, st') ->
  setpoint_pos_NWU st' = setpoint_pos_NWU st.
Proof.
  destruct m as [s|a target|p]; cbn [dispatch no_target].
  - unfold state_cb, modify. intros _ [= <-]. reflexivity.
  - intros [Hne ->].
    unfold marker_position_cb, poses_0, modify, now, get, fault, sendTransform,
      mbind, M_bind, mret, M_ret. cbn.
    destruct (poses a) as [|p0 ps]; [discriminate|]. cbn. intros [= <-]. reflexivity.
  - unfold local_position_cb, modify, now, sendTransform, mbind, M_bind. cbn.
    intros _ [= <-]. reflexivity.
Qed.

Lemma dispatch_all_no_target (ms : list (Msg F)) : forall st st' : Node F,
  Forall no_target ms -> dispatch_all env ms st = Ok (tt, st') ->
  setpoint_pos_NWU st' = setpoint_pos_NWU st.
Proof.
  induction ms as [|m ms IH]; intros st st' Hall; cbn [dispatch_all].
  - intros [= <-]. reflexivity.
  - inversion Hall as [|? ? Hm Hms]; subst.
    intros Hrun. apply bind_Ok in Hrun as ([] & st1 & Hd & Hrest).
    rewrite (IH _ _ Hms Hrest). eapply dispatch_no_target; eauto.
Qed.

Lemma no_target_has_pose (m : Msg F) : no_target m -> has_pose m.
Proof. destruct m; cbn; tauto. Qed.

(** *** Invariants of the loops *)

Lemma preserved_ret {A} (I : Node F -> Prop) (a : A) : preserved I (mret a).
Proof. intros st a' st' HI [= _ <-]. exact HI. Qed.

Lemma preserved_bind {A B} (I : Node F -> Prop) (c : M F A) (k : A -> M F B) :
  preserved I c -> (forall a, preserved I (k a)) -> preserved I (c ≫= k).
Proof.
  intros Hc Hk st b st' HI Hrun.
  apply bind_Ok in Hrun as (a & st1 & H1 & H2).
  eapply Hk; [|exact H2]. eapply Hc; eauto.
Qed.

Lemma preserved_get (I : Node F -> Prop) : preserved I get.
Proof. intros st a st' HI [= _ <-]. exact HI. Qed.

Lemma preserved_modify (I : Node F -> Prop) (f : Node F -> Node F) :
  (forall st, I st -> I (f st)) -> preserved I (modify f).
Proof. intros Hf st a st' HI [= _ <-]. now apply Hf. Qed.

Lemma preserved_if {A} (I : Node F -> Prop) (b : bool) (c1 c2 : M F A) :
  preserved I c1 -> preserved I c2 -> preserved I (if b then c1 else c2).
Proof. now destruct b. Qed.

Lemma preserved_for_ok_break (I : Node F -> Prop) (body : M F bool) (n : nat) :
  preserved I (ok env) -> preserved I body -> preserved I (for_ok_break env n body).
Proof.
  intros Hok Hbody. induction n as [|n IH]; cbn [for_ok_break].
  - apply preserved_bind; [exact Hok|]. intros []; apply preserved_ret.
  - apply preserved_bind; [exact Hok|]. intros []; [|apply preserved_ret].
    apply preserved_bind; [exact Hbody|]. intros []; [apply preserved_ret|exact IH].
Qed.

Lemma preserved_for_ok (I : Node F -> Prop) (body : M F unit) (n : nat) :
  preserved I (ok env) -> preserved I body -> preserved I (for_ok env n body).
Proof.
  intros Hok Hbody. apply preserved_for_ok_break; [exact Hok|].
  apply preserved_bind; [exact Hbody|]. intros _. apply preserved_ret.
Qed.

Lemma preserved_while_fuel (I : Node F -> Prop) (cond : M F bool) (body : M F unit)
    (fuel : nat) :
  preserved I cond -> preserved I body -> preserved I (while_fuel fuel cond body).
Proof.
  intros Hcond Hbody. induction fuel as [|fuel IH]; cbn [while_fuel].
  - intros st a st' _ Hrun. discriminate.
  - apply preserved_bind; [exact Hcond|]. intros []; [|apply preserved_ret].
    apply preserved_bind; [exact Hbody|]. intros _. exact IH.
Qed.

(** An invariant that looks only at what the callbacks leave alone
    survives ros::spinOnce, provided it ignores the spin counter. *)
Lemma preserved_spinOnce (I : Node F -> Prop) :
  (forall st st', callback_frame st' = callback_frame st -> I st -> I st') ->
  (forall st n, I st -> I (set_n_spin n st)) ->
  preserved I (spinOnce env).
Proof.
  intros Hframe Hspin st a st' HI Hrun. destruct a.
  apply spinOnce_Ok, dispatch_all_frame in Hrun.
  eapply Hframe; [exact Hrun|]. now apply Hspin.
Qed.

(** *** land *)

Lemma land_calls_frame k (st st' : Node F) :
  callback_frame st' = callback_frame st -> land_calls k st -> land_calls k st'.
Proof. unfold callback_frame, land_calls. intros [= _ _ _ _ _ _ _ _ ->]. auto. Qed.

Lemma land_calls_ok k : preserved (land_calls k) (ok env).
Proof. intros st a st' HI [= _ <-]. exact HI. Qed.

Lemma land_calls_now k : preserved (land_calls k) (now env).
Proof. intros st a st' HI [= _ <-]. exact HI. Qed.

Lemma land_calls_spinOnce k : preserved (land_calls k) (spinOnce env).
Proof. apply preserved_spinOnce; [apply land_calls_frame|auto]. Qed.

Lemma land_calls_publish_spin_sleep k :
  preserved (land_calls k) (publish_spin_sleep env).
Proof.
  unfold publish_spin_sleep, publish_setpoint, sleep.
  apply preserved_bind; [apply preserved_modify; auto|]. intros _.
  apply preserved_bind; [apply land_calls_spinOnce|]. intros _. apply preserved_ret.
Qed.

Lemma land_calls_request_due k : preserved (land_calls k) (request_due env).
Proof.
  unfold request_due. apply preserved_bind; [apply land_calls_now|]. intros t.
  apply preserved_bind; [apply preserved_get|]. intros st. apply preserved_ret.
Qed.

Lemma land_calls_call_arming k : preserved (land_calls k) (call_arming env).
Proof. intros st a st' HI [= _ <-]. exact HI. Qed.

Lemma land_calls_land_disarm k fuel : preserved (land_calls k) (land_disarm env fuel).
Proof.
  unfold land_disarm. apply preserved_while_fuel.
  - apply preserved_bind; [apply land_calls_ok|]. intros []; [|apply preserved_ret].
    apply preserved_bind; [apply preserved_get|]. intros st. apply preserved_ret.
  - apply preserved_bind; [apply preserved_get|]. intros st.
    apply preserved_bind.
    { apply preserved_if; [apply land_calls_request_due|apply preserved_ret]. }
    intros due. apply preserved_bind.
    { apply preserved_if; [|apply preserved_ret].
      apply preserved_bind; [apply land_calls_call_arming|]. intros _.
      apply preserved_bind; [apply land_calls_now|]. intros t.
      apply preserved_modify; auto. }
    intros _. apply preserved_bind; [apply land_calls_spinOnce|]. intros _.
    apply preserved_ret.
Qed.

Lemma both_true (r : bool * bool) : r.1 && r.2 = true <-> r = (true, true).
Proof. destruct r as [[] []]; cbn; split; congruence. Qed.

(** The retry loop returns only through a call that succeeded. *)
Lemma land_retry_Ok (fuel : nat) : forall st st' : Node F,
  land_retry env fuel st = Ok (tt, st') ->
  (n_land st < n_land st')%nat /\ land_srv env (pred (n_land st')) = (true, true).
Proof.
  unfold land_retry. induction fuel as [|fuel IH]; intros st st'; cbn [while_fuel].
  - discriminate.
  - intros Hrun. apply bind_Ok in Hrun as (c & st1 & Hcond & Hrest).
    apply bind_Ok in Hcond as (landed & st0 & Hcall & Hret).
    injection Hcall as <- <-. injection Hret as <- <-.
    destruct (land_srv env (n_land st)).1 eqn:E1, (land_srv env (n_land st)).2 eqn:E2;
      cbn [andb negb] in Hrest.
    1: { injection Hrest as <-. cbn. split; [lia|]. apply both_true. now rewrite E1, E2. }
    all: apply bind_Ok in Hrest as ([] & st2 & Hbody & Hloop);
      apply (land_calls_publish_spin_sleep (S (n_land st))) in Hbody; [|reflexivity];
      destruct (IH _ _ Hloop) as [Hlt Hsucc]; unfold land_calls in Hbody;
      split; [lia|exact Hsucc].
Qed.

(** The disarm loop returns when the vehicle reports disarmed or when
    ros::ok() has just answered false. *)
Lemma land_disarm_Ok (fuel : nat) : forall st st' : Node F,
  land_disarm env fuel st = Ok (tt, st') ->
  armed (current_state st') = false \/ ros_ok env (pred (n_ok st')) = false.
Proof.
  unfold land_disarm. induction fuel as [|fuel IH]; intros st st'; cbn [while_fuel].
  - discriminate.
  - intros Hrun. apply bind_Ok in Hrun as (c & st1 & Hcond & Hrest).
    apply bind_Ok in Hcond as (running & st0 & Hok & Hret).
    injection Hok as <- <-.
    destruct (ros_ok env (n_ok st)) eqn:Eok.
    + apply bind_Ok in Hret as (st0' & st0'' & Hget & Hret).
      injection Hget as <- <-. injection Hret as <- <-.
      cbn [current_state set_n_ok] in Hrest.
      destruct (armed (current_state st)) eqn:Earmed.
      * apply bind_Ok in Hrest as ([] & st2 & _ & Hloop). eapply IH, Hloop.
      * injection Hrest as <-. left. exact Earmed.
    + injection Hret as <- <-. injection Hrest as <-. right. exact Eok.
Qed.

Lemma bind_OutOfFuel {A B} (c : M F A) (k : A -> M F B) st :
  c st = OutOfFuel -> (c ≫= k) st = OutOfFuel.
Proof. unfold mbind, M_bind. now intros ->. Qed.

Lemma publish_spin_sleep_safe (st : Node F) :
  Forall has_pose (inbox env (n_spin st)) ->
  exists st', publish_spin_sleep env st = Ok (tt, st').
Proof.
  intros Hsafe. unfold publish_spin_sleep, publish_setpoint, sleep, modify.
  unfold mbind at 1, M_bind at 1. cbv beta iota.
  set (st1 := set_published _ st).
  destruct (dispatch_all_has_pose (inbox env (n_spin st1))
              (set_n_spin (S (n_spin st1)) st1) Hsafe) as (st2 & Hst2).
  apply spinOnce_Ok in Hst2. rewrite (bind_step _ _ _ _ _ Hst2).
  unfold mret, M_ret. eauto.
Qed.

Lemma land_retry_step (fuel : nat) (st : Node F) :
  land_retry env (S fuel) st =
  if (land_srv env (n_land st)).1 && (land_srv env (n_land st)).2
  then Ok (tt, set_n_land (S (n_land st)) st)
  else (publish_spin_sleep env;; land_retry env fuel) (set_n_land (S (n_land st)) st).
Proof.
  unfold land_retry. cbn [while_fuel].
  unfold call_land, mbind, M_bind, mret, M_ret. cbv beta iota zeta.
  destruct ((land_srv env (n_land st)).1 && (land_srv env (n_land st)).2); reflexivity.
Qed.

Lemma land_retry_succeeds (k : nat) : forall st : Node F,
  inbox_safe env -> land_srv env (n_land st + k) = (true, true) ->
  exists fuel st', land_retry env fuel st = Ok (tt, st').
Proof.
  induction k as [|k IH]; intros st Hsafe Hsucc.
  - exists 1%nat. eexists. rewrite land_retry_step.
    rewrite Nat.add_0_r in Hsucc. rewrite Hsucc. reflexivity.
  - destruct ((land_srv env (n_land st)).1 && (land_srv env (n_land st)).2) eqn:Eb.
    + exists 1%nat. eexists. rewrite land_retry_step, Eb. reflexivity.
    + set (st1 := set_n_land (S (n_land st)) st).
      destruct (publish_spin_sleep_safe st1 (Hsafe _)) as (st2 & Hbody).
      assert (Hn : n_land st2 = S (n_land st)).
      { eapply (land_calls_publish_spin_sleep (S (n_land st))); [|exact Hbody].
        reflexivity. }
      destruct (IH st2 Hsafe) as (fuel & st' & Hloop).
      { rewrite Hn.
        now replace (S (n_land st) + k)%nat with (n_land st + S k)%nat by lia. }
      exists (S fuel), st'. rewrite land_retry_step, Eb. fold st1.
      rewrite (bind_step _ _ _ _ _ Hbody). exact Hloop.
Qed.

Lemma land_retry_never (fuel : nat) : forall st : Node F,
  inbox_safe env -> (forall k, land_srv env (n_land st + k) <> (true, true)) ->
  land_retry env fuel st = OutOfFuel.
Proof.
  induction fuel as [|fuel IH]; intros st Hsafe Hfail; [reflexivity|].
  rewrite land_retry_step.
  destruct ((land_srv env (n_land st)).1 && (land_srv env (n_land st)).2) eqn:Eb.
  { exfalso. apply (Hfail 0%nat). rewrite Nat.add_0_r. now apply both_true. }
  set (st1 := set_n_land (S (n_land st)) st).
  destruct (publish_spin_sleep_safe st1 (Hsafe _)) as (st2 & Hbody).
  assert (Hn : n_land st2 = S (n_land st)).
  { eapply (land_calls_publish_spin_sleep (S (n_land st))); [|exact Hbody].
    reflexivity. }
  rewrite (bind_step _ _ _ _ _ Hbody). apply IH; [exact Hsafe|].
  intros k. rewrite Hn.
  replace (S (n_land st) + k)%nat with (n_land st + S k)%nat by lia. apply Hfail.
Qed.

(** C10, as amended: land returns only after a call of the landing service
    has reported success, and when it returns the vehicle reports disarmed
    or ros::ok() has just answered false; its retry loop returns exactly
    when the service eventually succeeds, and never if it always fails. *)
Theorem land_returns_after_success (st : Node F) :
  (forall fuel st',
     land env fuel st = Ok (tt, st') ->
     (n_land st < n_land st')%nat /\
     land_srv env (pred (n_land st')) = (true, true) /\
     (armed (current_state st') = false \/ ros_ok env (pred (n_ok st')) = false)) /\
  (inbox_safe env ->
     ((exists fuel st', land_retry env fuel st = Ok (tt, st')) <->
      (exists k, land_srv env (n_land st + k) = (true, true))) /\
     ((forall k, land_srv env (n_land st + k) <> (true, true)) ->
      forall fuel, land env fuel st = OutOfFuel)).
Proof.
  split.
  - intros fuel st' Hrun. unfold land in Hrun.
    apply bind_Ok in Hrun as ([] & st1 & Hretry & Hrun).
    apply bind_Ok in Hrun as ([] & st2 & Hwait & Hrun).
    apply bind_Ok in Hrun as ([] & st3 & Hset & Hdisarm).
    injection Hset as <-.
    destruct (land_retry_Ok _ _ _ Hretry) as [Hlt Hsucc].
    assert (H2 : n_land st2 = n_land st1).
    { eapply (preserved_for_ok (land_calls (n_land st1))); [| |reflexivity|exact Hwait].
      - apply land_calls_ok.
      - apply preserved_bind; [apply land_calls_spinOnce|]. intros _.
        apply preserved_ret. }
    assert (H3 : n_land st' = n_land st1).
    { eapply (land_calls_land_disarm (n_land st1)); [|exact Hdisarm]. exact H2. }
    rewrite H3. split; [exact Hlt|]. split; [exact Hsucc|].
    eapply land_disarm_Ok, Hdisarm.
  - intros Hsafe. split; [split|].
    + intros (fuel & st' & Hrun). apply land_retry_Ok in Hrun as [Hlt Hsucc].
      exists (pred (n_land st') - n_land st)%nat.
      now replace (n_land st + (pred (n_land st') - n_land st))%nat
        with (pred (n_land st')) by lia.
    + intros (k & Hk). now apply (land_retry_succeeds k).
    + intros Hfail fuel. unfold land. apply bind_OutOfFuel.
      now apply land_retry_never.
Qed.

(** C9: marker_position_cb reads poses[0] out of bounds exactly when the
    received array is empty, and turnTowardsMarker and approachMarker read
    poses[0] of an empty array as soon as they find it fresh; none of the
    three checks the size first. *)
Theorem poses_0_unchecked :
  (forall (msg : PoseArray F) target (st : Node F),
     marker_position_cb env msg target st = Fault <-> poses msg = []) /\
  (forall st : Node F,
     ros_ok env (n_ok st) = true -> fresh_at env st -> poses (marker_position st) = [] ->
     turnTowardsMarker env st = Fault) /\
  (forall st : Node F,
     ros_ok env (n_ok st) = true -> fresh_at env st -> poses (marker_position st) = [] ->
     approachMarker env st = Fault).
Proof.
  split; [|split].
  - intros msg target st. split.
    + intros Hfault. destruct (poses msg) as [|p ps] eqn:E; [reflexivity|].
      destruct (marker_position_cb_nonempty msg target st) as (st' & Hok).
      { rewrite E. discriminate. }
      congruence.
    + apply marker_position_cb_empty.
  - apply turnTowardsMarker_empty.
  - apply approachMarker_empty.
Qed.

(** *** takeOff *)

Lemma spinOnce_quiet (st : Node F) :
  Forall no_target (inbox env (n_spin st)) ->
  exists st', spinOnce env st = Ok (tt, st') /\
    setpoint_pos_NWU st' = setpoint_pos_NWU st /\
    callback_frame st' = callback_frame (set_n_spin (S (n_spin st)) st).
Proof.
  intros Hq.
  destruct (dispatch_all_has_pose (inbox env (n_spin st))
              (set_n_spin (S (n_spin st)) st)) as (st' & Hrun).
  { eapply Forall_impl; [exact Hq|]. apply no_target_has_pose. }
  exists st'. split; [now apply spinOnce_Ok|]. split.
  - now rewrite (dispatch_all_no_target _ _ _ Hq Hrun).
  - eapply dispatch_all_frame, Hrun.
Qed.

(** The publishing loop while the setpoint is left alone. *)
Lemma hold_loop (n : nat) : forall st : Node F,
  quiet env (n_spin st) (n_spin st + n) ->
  exists (m : nat) (st' : Node F),
    (m <= n)%nat /\
    for_ok env n (publish_spin_sleep env) st = Ok (tt, st') /\
    published st' = published st ++ replicate m (setpoint_pos_NWU st) /\
    setpoint_pos_NWU st' = setpoint_pos_NWU st /\
    pose_NWU st' = pose_NWU st.
Proof.
  unfold for_ok. induction n as [|n IH]; intros st Hq; cbn [for_ok_break].
  - unfold ok, mbind, M_bind, mret, M_ret. cbv beta iota.
    exists 0%nat. eexists. split; [lia|]. split.
    + destruct (ros_ok env (n_ok st)); reflexivity.
    + cbn. now rewrite app_nil_r.
  - unfold ok at 1, mbind at 1, M_bind at 1. cbv beta iota.
    destruct (ros_ok env (n_ok st)).
    2: { exists 0%nat. eexists. split; [lia|]. split; [reflexivity|].
         cbn. now rewrite app_nil_r. }
    set (st0 := set_n_ok (S (n_ok st)) st).
    set (st1 := set_published (published st0 ++ [setpoint_pos_NWU st0]) st0).
    destruct (spinOnce_quiet st1) as (st2 & Hspin & Hsp & Hfr).
    { apply Hq. cbn. lia. }
    assert (Hbody : (publish_spin_sleep env;; mret false) st0 = Ok (false, st2)).
    { unfold publish_spin_sleep, publish_setpoint, sleep, modify.
      unfold mbind, M_bind, mret, M_ret. cbv beta iota. fold st1.
      now rewrite Hspin. }
    rewrite (bind_step _ _ _ _ _ Hbody). cbv beta iota.
    unfold callback_frame in Hfr. cbn in Hfr.
    injection Hfr as Hp _ _ Hpub _ Hn _ _ _.
    destruct (IH st2) as (m & st' & Hm & Hrun & Hpub' & Hsp' & Hp').
    { intros k Hk. apply Hq. rewrite Hn in Hk. lia. }
    exists (S m), st'. split; [lia|]. split; [exact Hrun|].
    rewrite Hpub', Hsp', Hp', Hsp, Hpub, Hp. cbn.
    rewrite <- app_assoc. auto.
Qed.

Section Holding.
Variable sp : PoseStamped F.
Variables lo hi : nat.
Hypothesis Hquiet : quiet env lo hi.

Lemma holding_ok : preserved (holding sp lo hi) (ok env).
Proof. intros st a st' HI [= _ <-]. exact HI. Qed.

Lemma holding_now : preserved (holding sp lo hi) (now env).
Proof. intros st a st' HI [= _ <-]. exact HI. Qed.

Lemma holding_call_set_mode : preserved (holding sp lo hi) (call_set_mode env).
Proof. intros st a st' HI [= _ <-]. exact HI. Qed.

Lemma holding_call_arming : preserved (holding sp lo hi) (call_arming env).
Proof. intros st a st' HI [= _ <-]. exact HI. Qed.

Lemma holding_request_due : preserved (holding sp lo hi) (request_due env).
Proof.
  unfold request_due. apply preserved_bind; [apply holding_now|]. intros t.
  apply preserved_bind; [apply preserved_get|]. intros st. apply preserved_ret.
Qed.

Lemma holding_spinOnce : preserved (holding sp lo hi) (spinOnce env).
Proof.
  intros st [] st' [Hlo Hsp] Hrun. apply spinOnce_Ok in Hrun.
  pose proof (dispatch_all_frame _ _ _ Hrun) as Hfr.
  unfold callback_frame in Hfr. cbn in Hfr. injection Hfr as _ _ _ _ _ Hn _ _ _.
  split; [lia|]. intros Hhi.
  rewrite (dispatch_all_no_target _ _ _ (Hquiet (n_spin st) ltac:(lia)) Hrun).
  cbn. apply Hsp. lia.
Qed.

Lemma holding_publish_spin_sleep :
  preserved (holding sp lo hi) (publish_spin_sleep env).
Proof.
  unfold publish_spin_sleep, publish_setpoint, sleep.
  apply preserved_bind; [apply preserved_modify; auto|]. intros _.
  apply preserved_bind; [apply holding_spinOnce|]. intros _. apply preserved_ret.
Qed.

End Holding.

Lemma offboardMode_holds (fuel : nat) (st st1 : Node F) :
  offboardMode env fuel st = Ok (tt, st1) ->
  quiet env (n_spin st) (n_spin st1) ->
  setpoint_pos_NWU st1 =
  mkPoseStamped (ps_stamp (setpoint_pos_NWU st)) (pose (local_position st)).
Proof.
  intros Hrun Hq. unfold offboardMode in Hrun.
  apply bind_Ok in Hrun as ([] & st0 & Hset & Hrun). injection Hset as <-.
  set (sp := mkPoseStamped (ps_stamp (setpoint_pos_NWU st)) (pose (local_position st))).
  assert (HI : holding sp (n_spin st) (n_spin st1) st1).
  { revert Hrun. 
    match goal with |- ?c ?s = _ -> _ =>
      assert (Hp : preserved (holding sp (n_spin st) (n_spin st1)) c) end.
    { apply preserved_bind.
      { apply preserved_for_ok; [apply holding_ok|now apply holding_publish_spin_sleep]. }
      intros _. apply preserved_bind; [apply preserved_modify; auto|]. intros _.
      apply preserved_bind; [apply holding_now|]. intros t.
      apply preserved_bind; [apply preserved_modify; auto|]. intros _.
      apply preserved_while_fuel.
      - apply preserved_bind; [apply holding_ok|]. intros []; [|apply preserved_ret].
        apply preserved_bind; [apply preserved_get|]. intros s. apply preserved_ret.
      - apply preserved_bind; [apply preserved_get|]. intros s.
        apply preserved_bind.
        { apply preserved_if; [apply holding_request_due|apply preserved_ret]. }
        intros due. apply preserved_bind; [|intros _; now apply holding_publish_spin_sleep].
        apply preserved_if.
        + apply preserved_bind; [apply holding_call_set_mode|]. intros _.
          apply preserved_bind; [apply holding_now|]. intros t'.
          apply preserved_modify; auto.
        + apply preserved_bind; [apply preserved_get|]. intros s'.
          apply preserved_bind.
          { apply preserved_if; [apply holding_request_due|apply preserved_ret]. }
          intros due'. apply preserved_if; [|apply preserved_ret].
          apply preserved_bind; [apply holding_call_arming|]. intros _.
          apply preserved_bind; [apply holding_now|]. intros t'.
          apply preserved_modify; auto. }
    intros Hrun. eapply Hp; [|exact Hrun]. split; [cbn; lia|]. intros _. reflexivity. }
  destruct HI as [_ HI]. apply HI. lia.
Qed.

(** C8, as amended: takeOff stores its target in pose_NWU and never
    assigns setpoint_pos_NWU; as long as no marker callback run by
    ros::spinOnce gets a target position, every setpoint published by the
    take-off loop is the one held on entry, which after offboardMode is the
    pose captured there. *)
Theorem takeOff_publishes_hold :
  (forall st : Node F,
     quiet env (n_spin st) (n_spin st + 200) ->
     exists (m : nat) (st' : Node F),
       (m <= 200)%nat /\
       takeOff env st = Ok (tt, st') /\
       published st' = published st ++ replicate m (setpoint_pos_NWU st) /\
       setpoint_pos_NWU st' = setpoint_pos_NWU st /\
       pose_NWU st' = takeoff_target st) /\
  (forall (fuel : nat) (st st1 : Node F),
     offboardMode env fuel st = Ok (tt, st1) ->
     quiet env (n_spin st) (n_spin st1) ->
     pose (setpoint_pos_NWU st1) = pose (local_position st)).
Proof.
  split.
  - intros st Hq. unfold takeOff. rewrite iterations_10s.
    unfold modify at 1, mbind at 1, M_bind at 1. cbv beta iota.
    set (st0 := set_pose_NWU _ st).
    destruct (hold_loop 200 st0 Hq) as (m & st' & Hm & Hrun & Hpub & Hsp & Hp).
    exists m, st'. repeat split; assumption.
  - intros fuel st st1 Hrun Hq.
    now rewrite (offboardMode_holds fuel st st1 Hrun Hq).
Qed.

End Node.
End TakeoffNLandFacts.

(** ** More about the planner callbacks *)

Module TrajectoryPlannerMore.
Import DistanceVolume TrajectoryPlanner DistanceVolumeFacts TrajectoryPlannerFacts.

Section Callbacks.
Context {F : Type} `{FloatOps F} `{RayCarving F} `{EigenOps F} `{EwokPlanning F}.

Lemma spin_app (evs1 evs2 : list Event) : forall (st : Planner),
  spin (evs1 ++ evs2) st =
  match spin evs1 st with Some st1 => spin evs2 st1 | None => None end.
Proof.
  induction evs1 as [|ev evs1 IH]; intros st; cbn [spin app]; [reflexivity|].
  destruct (dispatch ev st); [apply IH|reflexivity].
Qed.

(** What a depth frame does to the flag and the volume. *)
Lemma depth_cam_cb_initialized listener msg (st st' : Planner) log :
  depth_cam_cb listener msg st = Some (st', log) ->
  initialized st' = initialized st || ingested (DepthImage listener msg).
Proof.
  unfold depth_cam_cb, ingested.
  destruct (toCvShare msg) as [img|err].
  2: { intros [= <- _]. now rewrite orb_false_r. }
  destruct (listener (stamp msg)) as [T|err].
  2: { intros [= <- _]. now rewrite orb_false_r. }
  destruct (build_cloud T img) as [cloud1|]; [|discriminate].
  rewrite orb_true_r.
  destruct (initialized st) eqn:E; cbn [negb]; intros [= <- _]; cbn; auto.
Qed.

Lemma dispatch_initialized ev (st st' : Planner) :
  dispatch ev st = Some st' -> initialized st' = initialized st || ingested ev.
Proof.
  destruct ev as [msg|msg|listener msg]; cbn [dispatch].
  - intros [= <-]. cbn. now rewrite orb_false_r.
  - intros [= <-]. cbn. now rewrite orb_false_r.
  - destruct (depth_cam_cb listener msg st) as [[st1 log]|] eqn:E; [|discriminate].
    intros [= <-]. eapply depth_cam_cb_initialized, E.
Qed.

Lemma spin_initialized (evs : list Event) : forall st st' : Planner,
  spin evs st = Some st' -> initialized st' = initialized st || existsb ingested evs.
Proof.
  induction evs as [|ev evs IH]; intros st st'; cbn [spin existsb].
  - intros [= <-]. now rewrite orb_false_r.
  - destruct (dispatch ev st) as [st1|] eqn:E; [|discriminate].
    intros Hrun. rewrite (IH _ _ Hrun), (dispatch_initialized _ _ _ E).
    now rewrite orb_assoc.
Qed.

Lemma spin_returns (evs : list Event) (st : Planner) :
  Forall wf_event evs -> is_Some (spin evs st).
Proof.
  intros Hwf. destruct (spin_voxels_held evs st Hwf) as (st' & Hrun & _).
  now exists st'.
Qed.

(** X1: the initialized flag is set by the first depth frame that decodes
    and has a transform, and by nothing else: a run of the callbacks from
    start-up returns when its images are well formed, and after any run
    that returns the flag is true exactly when such a frame has been
    received; it is never reset. *)
Theorem initialized_iff_ingested (p : Ptr) (evs : list Event) :
  (Forall wf_event evs -> is_Some (spin evs (main_init p))) /\
  (forall st, spin evs (main_init p) = Some st ->
     initialized st = existsb ingested evs /\
     (forall evs' st', spin evs' st = Some st' ->
        initialized st = true -> initialized st' = true)).
Proof.
  split; [apply spin_returns|]. intros st Hrun. split.
  - now rewrite (spin_initialized _ _ _ Hrun).
  - intros evs' st' Hrun' Hinit. now rewrite (spin_initialized _ _ _ Hrun'), Hinit.
Qed.

(** The volume a depth frame leaves depends on the flag and the volume
    only. *)
Lemma depth_cam_cb_volume listener msg (s1 s2 s1' : Planner) log :
  initialized s1 = initialized s2 -> edrb_obj s1 = edrb_obj s2 ->
  depth_cam_cb listener msg s1 = Some (s1', log) ->
  exists s2', depth_cam_cb listener msg s2 = Some (s2', log) /\
    initialized s1' = initialized s2' /\ edrb_obj s1' = edrb_obj s2'.
Proof.
  intros Hi Hv. unfold depth_cam_cb.
  destruct (toCvShare msg) as [img|err].
  2: { intros [= <- <-]. eauto. }
  destruct (listener (stamp msg)) as [T|err].
  2: { intros [= <- <-]. eauto. }
  destruct (build_cloud T img) as [cloud1|]; [|discriminate].
  rewrite <- Hi, <- Hv.
  destruct (negb (initialized s1)); intros [= <- <-]; eexists; split;
    try reflexivity; cbn; rewrite <- ?Hi; auto.
Qed.

Lemma spin_volume (evs : list Event) : forall s1 s2 s1' : Planner,
  initialized s1 = initialized s2 -> edrb_obj s1 = edrb_obj s2 ->
  spin evs s1 = Some s1' ->
  exists s2', spin (filter (fun ev => is_depth ev = true) evs) s2 = Some s2' /\
    initialized s1' = initialized s2' /\ edrb_obj s1' = edrb_obj s2'.
Proof.
  induction evs as [|ev evs IH]; intros s1 s2 s1' Hi Hv; cbn [spin].
  - intros [= <-]. exists s2. auto.
  - destruct (dispatch ev s1) as [s1m|] eqn:E; [|discriminate]. intros Hrun.
    destruct ev as [msg|msg|listener msg]; cbn [dispatch] in E.
    + injection E as <-. rewrite filter_cons_False by (cbn; discriminate).
      eapply IH; [| |exact Hrun]; cbn; assumption.
    + injection E as <-. rewrite filter_cons_False by (cbn; discriminate).
      eapply IH; [| |exact Hrun]; cbn; assumption.
    + rewrite filter_cons_True by reflexivity. cbn [spin dispatch].
      destruct (depth_cam_cb listener msg s1) as [[s1x log]|] eqn:E1; [|discriminate].
      injection E as <-.
      destruct (depth_cam_cb_volume _ _ _ s2 _ _ Hi Hv E1) as (s2m & E2 & Hi' & Hv').
      rewrite E2. cbn. eapply IH; eauto.
Qed.

(** X2: goal and position messages never touch the distance volume: a
    run of the callbacks returns when its images are well formed, and the
    volume (and the initialized flag) after a run that returns is the one
    the depth frames of the run produce on their own. *)
Theorem volume_from_depth_frames (p : Ptr) (evs : list Event) :
  (Forall wf_event evs -> is_Some (spin evs (main_init p))) /\
  (forall st, spin evs (main_init p) = Some st ->
     exists st',
       spin (filter (fun ev => is_depth ev = true) evs) (main_init p) = Some st' /\
       edrb_obj st' = edrb_obj st /\ initialized st' = initialized st).
Proof.
  split; [apply spin_returns|]. intros st Hrun.
  destruct (spin_volume evs (main_init p) (main_init p) st eq_refl eq_refl Hrun)
    as (st' & Hrun' & Hi & Hv).
  exists st'. auto.
Qed.

Lemma dispatch_local ev (st st' : Planner) :
  dispatch ev st = Some st' ->
  local_position st' =
    match ev with LocalPosition msg => msg | _ => local_position st end /\
  edrb st' = edrb st.
Proof.
  destruct ev as [msg|msg|listener msg]; cbn [dispatch].
  - intros [= <-]. auto.
  - intros [= <-]. auto.
  - unfold depth_cam_cb.
    destruct (toCvShare msg) as [img|err]; [|intros [= <-]; auto].
    destruct (listener (stamp msg)) as [T|err]; [|intros [= <-]; auto].
    destruct (build_cloud T img) as [cloud1|]; [|discriminate].
    destruct (negb (initialized st)); intros [= <-]; auto.
Qed.

Lemma spin_local (evs : list Event) : forall st st' : Planner,
  spin evs st = Some st' ->
  local_position st' = last_local (local_position st) evs /\ edrb st' = edrb st.
Proof.
  induction evs as [|ev evs IH]; intros st st'; cbn [spin].
  - intros [= <-]. auto.
  - destruct (dispatch ev st) as [st1|] eqn:E; [|discriminate]. intros Hrun.
    destruct (dispatch_local _ _ _ E) as [Hl He].
    destruct (IH _ _ Hrun) as [Hl' He'].
    unfold last_local in *. cbn [foldl]. rewrite Hl', Hl, He', He. auto.
Qed.

(** X3: a goal is planned from the position message received last before
    it, or from the default position (0, 0, 0) when none has arrived yet:
    the trajectory joins that point to the goal, and the spline
    optimisation is set up on it with the node's constants.  The run
    returns when the images received before the goal are well formed. *)
Theorem goal_planned_from_last_position (p : Ptr) (evs : list Event)
    (goal : PoseStamped F) :
  (Forall wf_event evs ->
   is_Some (spin (evs ++ [EndpointPosition goal]) (main_init p))) /\
  (forall st, spin (evs ++ [EndpointPosition goal]) (main_init p) = Some st ->
     let start := position (pose (last_local zero_pose_stamped evs)) in
     let tr := computeTrajectory limits [start; position (pose goal)] in
     traj st = Some tr /\
     spline_optimization st = Some (spline_for p tr) /\
     endpoint_position st = goal).
Proof.
  split.
  - intros Hwf. apply spin_returns, Forall_app. split; [exact Hwf|].
    apply Forall_singleton. exact I.
  - intros st. rewrite spin_app.
    destruct (spin evs (main_init p)) as [st1|] eqn:E; [|discriminate].
    destruct (spin_local _ _ _ E) as [Hl He]. cbn [spin dispatch].
    intros [= <-]. unfold endpoint_position_cb, spline_for, limits. cbn.
    rewrite Hl, He. cbn. auto.
Qed.

End Callbacks.

Section Cloud.
Context {F : Type} `{FloatOps F} `{EigenOps F}.

Lemma length_strided bound : length (strided bound) = Z.to_nat ((bound + 3) / 4).
Proof. unfold strided. now rewrite length_fmap, length_seqZ. Qed.

(** X4: a well-formed frame yields at most ceil(cols/4) * ceil(rows/4)
    points, and none at all when every range sample is zero. *)
Theorem build_cloud_size (T_w_c : Affine3f) (img : Image) :
  wf_image img ->
  exists cloud,
    build_cloud T_w_c img = Some cloud /\
    Z.of_nat (length cloud) <= ((cols img + 3) / 4) * ((rows img + 3) / 4) /\
    (Forall (fun x => x = 0) (data img) -> cloud = []).
Proof.
  intros Hwf. eexists. split; [now apply build_cloud_grid|]. split.
  - rewrite length_fmap.
    pose proof (length_filter (valid_sample img)
                  (list_prod (strided (cols img)) (strided (rows img)))) as Hle.
    rewrite length_prod, !length_strided in Hle.
    destruct Hwf as (Hc & Hr & _).
    assert (0 <= (cols img + 3) / 4) by (Z.div_mod_to_equations; lia).
    assert (0 <= (rows img + 3) / 4) by (Z.div_mod_to_equations; lia).
    nia.
  - intros Hzero.
    assert (Hnone : forall p, ~ valid_sample img p).
    { intros [u v]. unfold valid_sample, range_sample. cbn [fst snd].
      destruct ((0 <=? u) && (u <? cols img) && (0 <=? v) && (v <? rows img));
        [|auto].
      destruct (data img !! Z.to_nat (v * cols img + u)) as [x|] eqn:E; [|cbn; auto].
      cbn. rewrite Forall_forall in Hzero. assert (x = 0); [|lia].
      apply Hzero. eapply list_elem_of_lookup_2, E. }
    induction (list_prod (strided (cols img)) (strided (rows img))) as [|q l IH];
      [reflexivity|].
    rewrite filter_cons_False by apply Hnone. exact IH.
Qed.

Lemma fold_opt_is_Some {A} (body : Z -> A -> option A) (P : Z -> Prop) (l : list Z) :
  (forall i acc, i ∈ l -> is_Some (body i acc) <-> P i) ->
  forall acc, is_Some (fold_opt body l acc) <-> (forall i, i ∈ l -> P i).
Proof.
  induction l as [|i l IH]; intros Hbody acc; cbn [fold_opt].
  - split; [intros _ i Hi; inversion Hi|eauto].
  - destruct (body i acc) as [acc'|] eqn:E.
    + rewrite IH by (intros; apply Hbody; now right). split.
      * intros Hall j Hj. apply elem_of_cons in Hj as [->|Hj]; [|now apply Hall].
        apply (Hbody i acc); [left|]. rewrite E. eauto.
      * intros Hall j Hj. apply Hall. now right.
    + split; [intros [x Hx]; discriminate|].
      intros Hall. assert (Hs : is_Some (body i acc)).
      { apply Hbody; [left|]. apply Hall. left. }
      now rewrite E in Hs.
Qed.

Lemma depth_pixel_is_Some T_w_c img u v (c : list (Vec4 F)) :
  is_Some (depth_pixel T_w_c img u v c) <-> is_Some (pixel img u v).
Proof.
  unfold depth_pixel. destruct (pixel img u v) as [x|].
  - destruct (0 <? x); split; eauto.
  - split; intros [x Hx]; discriminate.
Qed.

Lemma pixel_is_Some img u v :
  0 <= v * cols img -> 0 <= u -> v * cols img + u < Int32.half_modulus ->
  is_Some (pixel img u v) <-> (Z.to_nat (v * cols img + u) < length (data img))%nat.
Proof.
  intros Hmul Hu Hint. unfold pixel. cbv zeta.
  rewrite !Int32Facts.fits_true by lia. cbn [andb].
  destruct (Z.ltb_spec (v * cols img + u) 0); [lia|]. apply lookup_lt_is_Some.
Qed.

(** X5: for an image whose dimensions keep the int counters and the int
    index of the loops from overflowing, the loops read the image buffer
    out of bounds, and nothing is ingested, exactly when some sampled
    pixel lies beyond the buffer (an image whose data is not rows x cols
    16-bit samples). *)
Theorem build_cloud_in_bounds (T_w_c : Affine3f) (img : Image) :
  int_sized img ->
  (is_Some (build_cloud T_w_c img) <-> sampled_in_buffer img).
Proof.
  intros (Hc & Hr & Hcb & Hrb & Hprod).
  unfold build_cloud, sampled_in_buffer. rewrite for_stride4_strided by exact Hcb.
  rewrite (fold_opt_is_Some _
    (fun u => forall v, v ∈ strided (rows img) ->
       (Z.to_nat (v * cols img + u) < length (data img))%nat)).
  { split; intros Hall u; [intros Hu v Hv|intros v Hu Hv]; now apply Hall. }
  intros u acc Hu. rewrite for_stride4_strided by exact Hrb.
  apply fold_opt_is_Some. intros v c Hv.
  rewrite depth_pixel_is_Some.
  apply elem_of_strided in Hu, Hv. apply pixel_is_Some; nia.
Qed.

End Cloud.
End TrajectoryPlannerMore.

(** ** More about the flight phases *)

Module TakeoffNLandMore.
Import TakeoffNLand TakeoffNLandFacts.

(** One primitive that only advances a counter of the environment. *)
Ltac counter_step := let HI := fresh in intros ? ? ? HI [= _ <-]; exact HI.

(** Walks through the control structure of a routine, leaving the
    primitives to [prim]. *)
Ltac preserve prim :=
  repeat first
    [ apply preserved_ret
    | apply preserved_get
    | apply preserved_if
    | apply preserved_for_ok
    | apply preserved_for_ok_break
    | apply preserved_while_fuel
    | prim
    | apply preserved_bind; [|intros ?] ].

Section Node.
Context {F : Type} `{FloatOps F} `{AngleOps F}.
Variable env : Env F.

(** *** Leaving a guarded loop *)

Lemma while_fuel_exit (cond : M F bool) (body : M F unit) (fuel : nat) :
  forall st st' : Node F,
    while_fuel fuel cond body st = Ok (tt, st') ->
    exists st0, cond st0 = Ok (false, st').
Proof.
  induction fuel as [|fuel IH]; intros st st'; cbn [while_fuel].
  - discriminate.
  - intros Hrun. apply bind_Ok in Hrun as (c & st1 & Hcond & Hrest).
    destruct c.
    + apply bind_Ok in Hrest as ([] & st2 & _ & Hloop). eapply IH, Hloop.
    + injection Hrest as <-. eauto.
Qed.

Lemma guard_exit (f : Node F -> bool) (st0 st' : Node F) :
  (running ← ok env;
   if (running : bool) then st ← get; mret (f st) else mret false) st0
    = Ok (false, st') ->
  st' = set_n_ok (S (n_ok st0)) st0 /\
  (f st' = false \/ ros_ok env (n_ok st0) = false).
Proof.
  unfold ok, get, mbind, M_bind, mret, M_ret. cbv beta iota.
  destruct (ros_ok env (n_ok st0)) eqn:Eok.
  - intros [= Hf <-]. auto.
  - intros [= <-]. auto.
Qed.

(** *** The setpoint stream *)

Lemma publish_spin_sleep_frame (st st' : Node F) :
  publish_spin_sleep env st = Ok (tt, st') ->
  published st' = published st ++ [setpoint_pos_NWU st] /\
  n_spin st' = S (n_spin st) /\ n_land st' = n_land st /\ n_ok st' = n_ok st.
Proof.
  unfold publish_spin_sleep, publish_setpoint, sleep. intros Hrun.
  apply bind_Ok in Hrun as ([] & st1 & Hpub & Hrun). injection Hpub as <-.
  apply bind_Ok in Hrun as ([] & st2 & Hspin & Hsl). injection Hsl as <-.
  apply (proj1 (spinOnce_Ok env _ _)) in Hspin.
  apply dispatch_all_frame in Hspin.
  unfold callback_frame in Hspin. cbn in Hspin.
  injection Hspin as _ _ _ Hp Hok Hn _ _ Hl. auto.
Qed.

Lemma stream_publish_spin_sleep (d : Z) :
  preserved (fun st => stream_lead st = d) (publish_spin_sleep env).
Proof.
  intros st [] st' HI Hrun.
  apply publish_spin_sleep_frame in Hrun as (Hp & Hn & _).
  unfold stream_lead in *. rewrite Hp, Hn, length_app. cbn [length]. lia.
Qed.

Lemma stream_offboardMode (d : Z) (fuel : nat) :
  preserved (fun st => stream_lead st = d) (offboardMode env fuel).
Proof.
  unfold offboardMode, request_due.
  preserve ltac:(first
    [ apply stream_publish_spin_sleep
    | apply preserved_modify; intros ? ?; assumption
    | counter_step ]).
Qed.

Lemma stream_takeOff (d : Z) :
  preserved (fun st => stream_lead st = d) (takeOff env).
Proof.
  unfold takeOff.
  preserve ltac:(first
    [ apply stream_publish_spin_sleep
    | apply preserved_modify; intros ? ?; assumption
    | counter_step ]).
Qed.

(** X8: from entry to return, offboardMode and takeOff publish exactly one
    setpoint for every ros::spinOnce they make, whatever the callbacks do:
    the lead of the number of setpoints published over the number of spins
    is the same at return as at entry. *)
Theorem one_setpoint_per_spin :
  (forall fuel (st st' : Node F),
     offboardMode env fuel st = Ok (tt, st') -> stream_lead st' = stream_lead st) /\
  (forall st st' : Node F,
     takeOff env st = Ok (tt, st') -> stream_lead st' = stream_lead st).
Proof.
  split.
  - intros fuel st st' Hrun.
    now apply (stream_offboardMode (stream_lead st) fuel st tt st').
  - intros st st' Hrun.
    now apply (stream_takeOff (stream_lead st) st tt st').
Qed.

(** *** The wait for the connection *)

Lemma wait_skipped (fuel : nat) (st : Node F) :
  connected (current_state st) = false ->
  wait_for_connection env (S fuel) st = Ok (tt, set_n_ok (S (n_ok st)) st).
Proof.
  intros Hc. unfold wait_for_connection. cbn [while_fuel].
  unfold ok, get, mbind, M_bind, mret, M_ret. cbv beta iota.
  destruct (ros_ok env (n_ok st)); [|reflexivity].
  cbn [current_state set_n_ok]. now rewrite Hc.
Qed.

(** X6: the loop at the head of main ("wait for FCU connection") runs while
    the state reports connected: when the state reports not connected, as
    the default-constructed state does, main makes one ros::ok() check and
    goes on to offboardMode without dispatching a callback; and whenever
    the wait returns, the state reports not connected or ros::ok() has just
    answered false. *)
Theorem connection_wait_inverted :
  (forall fuel, main env fuel =
     (wait_for_connection env fuel;; offboardMode env fuel;; takeOff env;;
      turnTowardsMarker env;; approachMarker env;; land env fuel)) /\
  (forall fuel (st : Node F),
     connected (current_state st) = false ->
     main env (S fuel) st =
     (offboardMode env (S fuel);; takeOff env;; turnTowardsMarker env;;
      approachMarker env;; land env (S fuel)) (set_n_ok (S (n_ok st)) st)) /\
  (forall fuel (st st' : Node F),
     wait_for_connection env fuel st = Ok (tt, st') ->
     connected (current_state st') = false \/
     ros_ok env (pred (n_ok st')) = false).
Proof.
  split; [reflexivity|]. split.
  - intros fuel st Hc.
    change (main env (S fuel)) with
      (wait_for_connection env (S fuel);; offboardMode env (S fuel);; takeOff env;;
       turnTowardsMarker env;; approachMarker env;; land env (S fuel)).
    now rewrite (bind_step _ _ _ _ _ (wait_skipped fuel st Hc)).
  - intros fuel st st' Hrun. unfold wait_for_connection in Hrun.
    apply while_fuel_exit in Hrun as (st0 & Hcond).
    apply (guard_exit (fun s => connected (current_state s))) in Hcond
      as (-> & Hcase).
    cbn [n_ok set_n_ok pred]. exact Hcase.
Qed.

(** *** The number of setpoints land publishes *)

Lemma land_lead_retry (fuel : nat) : forall st st' : Node F,
  land_retry env fuel st = Ok (tt, st') -> land_lead st' = land_lead st - 1.
Proof.
  induction fuel as [|fuel IH]; intros st st'; [discriminate|].
  rewrite land_retry_step.
  destruct ((land_srv env (n_land st)).1 && (land_srv env (n_land st)).2).
  - intros [= <-]. unfold land_lead. cbn [published n_land set_n_land]. lia.
  - intros Hrun. apply bind_Ok in Hrun as ([] & st1 & Hbody & Hloop).
    rewrite (IH _ _ Hloop).
    apply publish_spin_sleep_frame in Hbody as (Hp & _ & Hl & _).
    unfold land_lead. rewrite Hp, Hl, length_app.
    cbn [length published n_land set_n_land]. lia.
Qed.

Lemma land_lead_spinOnce (d : Z) :
  preserved (fun st => land_lead st = d) (spinOnce env).
Proof.
  apply preserved_spinOnce; [|auto].
  unfold callback_frame, land_lead. intros st st' [= _ _ _ -> _ _ _ _ ->]. auto.
Qed.

(** X12: land publishes one setpoint for every landing request that fails
    and none once a request has succeeded: on return the number of
    setpoints published by land is the number of landing requests it made,
    less one. *)
Theorem land_publishes_per_failed_request (fuel : nat) (st st' : Node F) :
  land env fuel st = Ok (tt, st') ->
  Z.of_nat (length (published st')) - Z.of_nat (length (published st)) =
  Z.of_nat (n_land st') - Z.of_nat (n_land st) - 1.
Proof.
  intros Hrun. unfold land in Hrun.
  apply bind_Ok in Hrun as ([] & st1 & Hretry & Hrun).
  apply land_lead_retry in Hretry.
  assert (Hrest : land_lead st' = land_lead st1).
  { revert Hrun.
    match goal with |- ?c ?s = _ -> _ =>
      assert (Hp : preserved (fun st => land_lead st = land_lead st1) c) end.
    { unfold land_disarm, request_due, sleep.
      preserve ltac:(first
        [ apply land_lead_spinOnce
        | apply preserved_modify; intros ? ?; assumption
        | counter_step ]). }
    intros Hrun. now apply (Hp st1 tt st'). }
  unfold land_lead in *. lia.
Qed.

(** *** Leaving offboardMode *)

Lemma offboardMode_exit (fuel : nat) (st st' : Node F) :
  offboardMode env fuel st = Ok (tt, st') ->
  armed (current_state st') = true \/ ros_ok env (pred (n_ok st')) = false.
Proof.
  intros Hrun. unfold offboardMode in Hrun.
  apply bind_Ok in Hrun as ([] & s1 & _ & Hrun).
  apply bind_Ok in Hrun as ([] & s2 & _ & Hrun).
  apply bind_Ok in Hrun as ([] & s3 & _ & Hrun).
  apply bind_Ok in Hrun as (t & s4 & _ & Hrun).
  apply bind_Ok in Hrun as ([] & s5 & _ & Hrun).
  apply while_fuel_exit in Hrun as (st0 & Hcond).
  apply (guard_exit (fun s => negb (armed (current_state s)))) in Hcond
    as (-> & Hcase).
  cbn [n_ok set_n_ok pred]. cbn beta in Hcase.
  destruct Hcase as [Ha|Hk]; [left|now right].
  now apply negb_false_iff in Ha.
Qed.

(** *** Runs that return *)

Lemma total_ret {A} (I : Node F -> Prop) (a : A) : total I (mret a).
Proof. intros st HI. exists a, st. auto. Qed.

Lemma total_bind {A B} (I : Node F -> Prop) (c : M F A) (k : A -> M F B) :
  total I c -> (forall a, total I (k a)) -> total I (c ≫= k).
Proof.
  intros Hc Hk st HI. destruct (Hc st HI) as (a & st1 & Hrun & HI1).
  destruct (Hk a st1 HI1) as (b & st2 & Hrun2 & HI2).
  exists b, st2. split; [|exact HI2]. now rewrite (bind_step _ _ _ _ _ Hrun).
Qed.

Lemma total_get (I : Node F -> Prop) : total I get.
Proof. intros st HI. exists st, st. auto. Qed.

Lemma total_modify (I : Node F -> Prop) (f : Node F -> Node F) :
  (forall st, I st -> I (f st)) -> total I (modify f).
Proof. intros Hf st HI. exists tt, (f st). auto. Qed.

Lemma total_if {A} (I : Node F -> Prop) (b : bool) (c1 c2 : M F A) :
  total I c1 -> total I c2 -> total I (if b then c1 else c2).
Proof. now destruct b. Qed.

Lemma total_for_ok_break (I : Node F -> Prop) (body : M F bool) (n : nat) :
  total I (ok env) -> total I body -> total I (for_ok_break env n body).
Proof.
  intros Hok Hbody. induction n as [|n IH]; cbn [for_ok_break].
  - apply total_bind; [exact Hok|]. intros []; apply total_ret.
  - apply total_bind; [exact Hok|]. intros []; [|apply total_ret].
    apply total_bind; [exact Hbody|]. intros []; [apply total_ret|exact IH].
Qed.

Lemma total_for_ok (I : Node F -> Prop) (body : M F unit) (n : nat) :
  total I (ok env) -> total I body -> total I (for_ok env n body).
Proof.
  intros Hok Hbody. apply total_for_ok_break; [exact Hok|].
  apply total_bind; [exact Hbody|]. intros _. apply total_ret.
Qed.

(** A loop whose guard holds in every state of the invariant uses up any
    fuel. *)
Lemma while_fuel_never (I : Node F -> Prop) (cond : M F bool) (body : M F unit) :
  (forall st, I st -> exists st', cond st = Ok (true, st') /\ I st') ->
  total I body ->
  forall fuel st, I st -> while_fuel fuel cond body st = OutOfFuel.
Proof.
  intros Hcond Hbody. induction fuel as [|fuel IH]; intros st HI; [reflexivity|].
  cbn [while_fuel]. destruct (Hcond st HI) as (st1 & Hc & HI1).
  rewrite (bind_step _ _ _ _ _ Hc). cbv beta iota.
  destruct (Hbody st1 HI1) as ([] & st2 & Hb & HI2).
  rewrite (bind_step _ _ _ _ _ Hb). now apply IH.
Qed.

Lemma total_then_never {A B} (I : Node F -> Prop) (c : M F A) (k : A -> M F B) :
  total I c -> (forall a st, I st -> k a st = OutOfFuel) ->
  forall st, I st -> (c ≫= k) st = OutOfFuel.
Proof.
  intros Hc Hk st HI. destruct (Hc st HI) as (a & st1 & Hrun & HI1).
  rewrite (bind_step _ _ _ _ _ Hrun). now apply Hk.
Qed.

Ltac counter_total :=
  match goal with
  | |- total _ (ok _) => idtac
  | |- total _ (now _) => idtac
  | |- total _ (call_set_mode _) => idtac
  | |- total _ (call_arming _) => idtac
  end;
  let HI := fresh in intros ? HI; eexists _, _; split; [reflexivity|exact HI].

Ltac totalize prim :=
  repeat first
    [ apply total_ret
    | apply total_get
    | apply total_if
    | prim
    | apply total_for_ok
    | apply total_for_ok_break
    | apply total_bind; [|intros ?] ].

(** *** offboardMode while the vehicle does not arm *)

Lemma dispatch_unarmed (m : Msg F) (st : Node F) :
  unarmed_msg m -> armed (current_state st) = false ->
  exists st', dispatch env m st = Ok (tt, st') /\ armed (current_state st') = false.
Proof.
  destruct m as [s|a target|p]; cbn [dispatch unarmed_msg]; intros Hm Ha.
  - unfold state_cb, modify. eauto.
  - unfold marker_position_cb, poses_0, modify, now, get, fault, sendTransform,
      mbind, M_bind, mret, M_ret. cbn.
    destruct (poses a) as [|p0 ps]; [contradiction|].
    destruct target; cbn; eauto.
  - unfold local_position_cb, modify, now, sendTransform, mbind, M_bind. cbn. eauto.
Qed.

Lemma dispatch_all_unarmed (ms : list (Msg F)) : forall st : Node F,
  Forall unarmed_msg ms -> armed (current_state st) = false ->
  exists st', dispatch_all env ms st = Ok (tt, st') /\
    armed (current_state st') = false.
Proof.
  induction ms as [|m ms IH]; intros st Hall Ha; cbn [dispatch_all].
  - unfold mret, M_ret. eauto.
  - inversion Hall as [|? ? Hm Hms]; subst.
    destruct (dispatch_unarmed m st Hm Ha) as (st1 & Hst1 & Ha1).
    rewrite (bind_step _ _ _ _ _ Hst1). now apply IH.
Qed.

Section Unarmed.
Hypothesis Hnever : never_armed env.

Lemma unarmed_spinOnce : total unarmed (spinOnce env).
Proof.
  intros st Ha.
  destruct (dispatch_all_unarmed (inbox env (n_spin st))
              (set_n_spin (S (n_spin st)) st) (Hnever _) Ha) as (st' & Hrun & Ha').
  exists tt, st'. split; [|exact Ha']. exact Hrun.
Qed.

Lemma unarmed_offboardMode (fuel : nat) :
  (forall k, ros_ok env k = true) ->
  forall st, unarmed st -> offboardMode env fuel st = OutOfFuel.
Proof.
  intros Hok. unfold offboardMode.
  do 5 (apply total_then_never;
        [ unfold publish_spin_sleep, publish_setpoint, sleep;
          totalize ltac:(first
            [ apply unarmed_spinOnce
            | apply total_modify; intros ? ?; assumption
            | counter_total ])
        | intros ? ]).
  apply while_fuel_never.
  - intros st Ha. exists (set_n_ok (S (n_ok st)) st). split; [|exact Ha].
    unfold ok, get, mbind, M_bind, mret, M_ret. cbv beta iota.
    rewrite Hok. cbn [current_state set_n_ok]. unfold unarmed in Ha.
    now rewrite Ha.
  - unfold publish_spin_sleep, publish_setpoint, sleep, request_due.
    totalize ltac:(first
      [ apply unarmed_spinOnce
      | apply total_modify; intros ? ?; assumption
      | counter_total ]).
Qed.

End Unarmed.

(** X7: offboardMode returns only when the vehicle reports armed or
    ros::ok() has just answered false; the arming loop has no bound on its
    passes: while ROS keeps running and no state message reports the
    vehicle armed, offboardMode does not return. *)
Theorem offboardMode_until_armed :
  (forall fuel (st st' : Node F),
     offboardMode env fuel st = Ok (tt, st') ->
     armed (current_state st') = true \/ ros_ok env (pred (n_ok st')) = false) /\
  (never_armed env -> (forall k, ros_ok env k = true) ->
   forall fuel (st : Node F),
     armed (current_state st) = false -> offboardMode env fuel st = OutOfFuel).
Proof.
  split.
  - apply offboardMode_exit.
  - intros Hnever Hok fuel st Ha. now apply unarmed_offboardMode.
Qed.

(** *** After shutdown *)

Lemma untouched_refl (st : Node F) : untouched st st.
Proof. repeat split. Qed.

Lemma after_shutdown_refl (st : Node F) : shut_down env st -> after_shutdown env st st.
Proof. intros Hs. split; [exact Hs|]. split; [lia|apply untouched_refl]. Qed.

Lemma after_shutdown_ok (st0 st : Node F) :
  after_shutdown env st0 st -> ros_ok env (n_ok st) = false.
Proof. intros (Hs & Hle & _). now apply Hs. Qed.

Lemma after_shutdown_shut_down (st0 st : Node F) :
  after_shutdown env st0 st -> shut_down env st.
Proof. intros (Hs & Hle & _) k Hk. apply Hs. lia. Qed.

Lemma after_shutdown_n_ok (st0 st : Node F) :
  after_shutdown env st0 st -> after_shutdown env st0 (set_n_ok (S (n_ok st)) st).
Proof.
  intros (Hs & Hle & Hu). split; [exact Hs|]. split; [cbn; lia|exact Hu].
Qed.

Lemma after_shutdown_for_ok_break (st0 : Node F) (n : nat) (body : M F bool) :
  total (after_shutdown env st0) (for_ok_break env n body).
Proof.
  intros st HI. exists tt, (set_n_ok (S (n_ok st)) st).
  split; [|now apply after_shutdown_n_ok].
  destruct n; cbn [for_ok_break]; unfold ok, mbind, M_bind, mret, M_ret;
    cbv beta iota; rewrite (after_shutdown_ok _ _ HI); reflexivity.
Qed.

Lemma after_shutdown_for_ok (st0 : Node F) (n : nat) (body : M F unit) :
  total (after_shutdown env st0) (for_ok env n body).
Proof. apply after_shutdown_for_ok_break. Qed.

Lemma after_shutdown_guard (st0 : Node F) (f : Node F -> bool) (body : M F unit)
    (fuel : nat) :
  total (after_shutdown env st0)
    (while_fuel (S fuel)
       (running ← ok env;
        if (running : bool) then st ← get; mret (f st) else mret false)
       body).
Proof.
  intros st HI. exists tt, (set_n_ok (S (n_ok st)) st).
  split; [|now apply after_shutdown_n_ok].
  cbn [while_fuel]. unfold ok, mbind, M_bind, mret, M_ret.
  cbv beta iota. rewrite (after_shutdown_ok _ _ HI). reflexivity.
Qed.

Ltac shutdown_prim :=
  first
    [ apply after_shutdown_for_ok
    | apply after_shutdown_for_ok_break
    | apply after_shutdown_guard
    | apply total_modify; intros ? ?; assumption
    | counter_total ].

Lemma after_shutdown_offboardMode (st0 : Node F) (fuel : nat) :
  total (after_shutdown env st0) (offboardMode env (S fuel)).
Proof. unfold offboardMode. totalize shutdown_prim. Qed.

Lemma after_shutdown_takeOff (st0 : Node F) :
  total (after_shutdown env st0) (takeOff env).
Proof. unfold takeOff. totalize shutdown_prim. Qed.

Lemma after_shutdown_turnTowardsMarker (st0 : Node F) :
  total (after_shutdown env st0) (turnTowardsMarker env).
Proof. unfold turnTowardsMarker. totalize shutdown_prim. Qed.

Lemma after_shutdown_approachMarker (st0 : Node F) :
  total (after_shutdown env st0) (approachMarker env).
Proof. unfold approachMarker. totalize shutdown_prim. Qed.

Lemma after_shutdown_wait (st0 : Node F) (fuel : nat) :
  total (after_shutdown env st0) (wait_for_connection env (S fuel)).
Proof. unfold wait_for_connection. totalize shutdown_prim. Qed.

Lemma skipped {A} (c : M F A) (st : Node F) :
  (forall st0, total (after_shutdown env st0) c) -> shut_down env st ->
  exists a st', c st = Ok (a, st') /\ untouched st st' /\ shut_down env st'.
Proof.
  intros Hc Hs. destruct (Hc st st (after_shutdown_refl st Hs)) as (a & st' & Hrun & HI).
  exists a, st'. split; [exact Hrun|]. split; [apply HI|].
  eapply after_shutdown_shut_down, HI.
Qed.

(** X9: once ros::ok() answers false, offboardMode, takeOff,
    turnTowardsMarker and approachMarker each return without publishing a
    setpoint, serving the callback queue or calling a service; the marker
    array is not looked at. *)
Theorem shutdown_skips_flight (st : Node F) :
  shut_down env st ->
  (forall fuel, exists st',
     offboardMode env (S fuel) st = Ok (tt, st') /\
     untouched st st' /\ shut_down env st') /\
  (exists st', takeOff env st = Ok (tt, st') /\
     untouched st st' /\ shut_down env st') /\
  (exists st', turnTowardsMarker env st = Ok (tt, st') /\
     untouched st st' /\ shut_down env st' /\
     setpoint_pos_NWU st' = setpoint_pos_NWU st) /\
  (exists st', approachMarker env st = Ok (tt, st') /\
     untouched st st' /\ shut_down env st' /\
     setpoint_pos_NWU st' = setpoint_pos_NWU st).
Proof.
  intros Hs. split; [|split; [|split]].
  - intros fuel.
    destruct (skipped (offboardMode env (S fuel)) st) as ([] & st' & Hrun);
      [intros st0; apply after_shutdown_offboardMode|exact Hs|eauto].
  - destruct (skipped (takeOff env) st) as ([] & st' & Hrun);
      [intros st0; apply after_shutdown_takeOff|exact Hs|eauto].
  - exists (set_n_ok (S (n_ok st)) st).
    assert (HI : after_shutdown env st st) by now apply after_shutdown_refl.
    split; [|split; [exact (untouched_refl st)|split; [|reflexivity]]].
    + unfold turnTowardsMarker. rewrite iterations_5s. cbn [for_ok_break].
      unfold ok, mbind, M_bind, mret, M_ret. cbv beta iota.
      now rewrite (after_shutdown_ok _ _ HI).
    + eapply after_shutdown_shut_down, after_shutdown_n_ok, HI.
  - exists (set_n_ok (S (S (n_ok st))) st).
    assert (HI : after_shutdown env st st) by now apply after_shutdown_refl.
    pose proof (after_shutdown_n_ok _ _ HI) as HI1.
    split; [|split; [exact (untouched_refl st)|split; [|reflexivity]]].
    + unfold approachMarker, MAX_ATTEMPTS, for_ok.
      change (iterations (3 * ROS_RATE)) with 60%nat. cbn [for_ok_break].
      unfold ok, mbind, M_bind, mret, M_ret. cbv beta iota.
      rewrite (after_shutdown_ok _ _ HI). cbv beta iota.
      pose proof (after_shutdown_ok _ _ HI1) as E1.
      cbn [n_ok set_n_ok] in E1 |- *. now rewrite E1.
    + intros k Hk. apply Hs. cbn in Hk. lia.
Qed.

Lemma main_flight_skipped (fuel : nat) (st : Node F) :
  shut_down env st ->
  exists st5, after_shutdown env st st5 /\
    main env (S fuel) st = land env (S fuel) st5.
Proof.
  intros Hs. pose proof (after_shutdown_refl st Hs) as HI.
  change (main env (S fuel)) with
    (wait_for_connection env (S fuel);; offboardMode env (S fuel);; takeOff env;;
     turnTowardsMarker env;; approachMarker env;; land env (S fuel)).
  destruct (after_shutdown_wait st fuel st HI) as ([] & st1 & Hr1 & HI1).
  destruct (after_shutdown_offboardMode st fuel st1 HI1) as ([] & st2 & Hr2 & HI2).
  destruct (after_shutdown_takeOff st st2 HI2) as ([] & st3 & Hr3 & HI3).
  destruct (after_shutdown_turnTowardsMarker st st3 HI3) as ([] & st4 & Hr4 & HI4).
  destruct (after_shutdown_approachMarker st st4 HI4) as ([] & st5 & Hr5 & HI5).
  exists st5. split; [exact HI5|].
  rewrite (bind_step _ _ _ _ _ Hr1), (bind_step _ _ _ _ _ Hr2),
    (bind_step _ _ _ _ _ Hr3), (bind_step _ _ _ _ _ Hr4),
    (bind_step _ _ _ _ _ Hr5).
  reflexivity.
Qed.

(** X10: shutting the node down does not keep it from commanding the
    landing.  When ros::ok() already answers false, main goes through the
    flight without publishing or serving the callbacks and then sends the
    landing request: if that succeeds main returns, having sent nothing
    else and no disarm request; if the landing service keeps failing, main
    does not return. *)
Theorem shutdown_still_lands (st : Node F) :
  shut_down env st ->
  (land_srv env (n_land st) = (true, true) ->
   forall fuel, exists st',
     main env (S fuel) st = Ok (tt, st') /\
     published st' = published st /\ n_spin st' = n_spin st /\
     n_set_mode st' = n_set_mode st /\ n_arming st' = n_arming st /\
     n_land st' = S (n_land st)) /\
  (inbox_safe env -> (forall k, land_srv env (n_land st + k) <> (true, true)) ->
   forall fuel, main env fuel st = OutOfFuel).
Proof.
  intros Hs. split.
  - intros Hsucc fuel.
    destruct (main_flight_skipped fuel st Hs) as (st5 & HI5 & ->).
    pose proof HI5 as (_ & _ & Hp & _ & Hn & Hm & Ha & Hl).
    set (st6 := set_n_land (S (n_land st5)) st5).
    assert (Hretry : land_retry env (S fuel) st5 = Ok (tt, st6)).
    { assert (E : land_srv env (n_land st5) = (true, true)) by now rewrite Hl.
      rewrite land_retry_step, E. reflexivity. }
    assert (HI6 : after_shutdown env st6 st6).
    { apply after_shutdown_refl.
      exact (after_shutdown_shut_down _ _ HI5). }
    assert (Hrest : total (after_shutdown env st6)
              (for_ok env (iterations (5 * ROS_RATE)) (spinOnce env;; sleep);;
               modify (set_arm_cmd_value false);;
               land_disarm env (S fuel))).
    { unfold land_disarm. totalize shutdown_prim. }
    destruct (Hrest st6 HI6) as ([] & st' & Hrun & HI').
    exists st'. split.
    { unfold land. rewrite (bind_step _ _ _ _ _ Hretry). exact Hrun. }
    destruct HI' as (_ & _ & Hp' & _ & Hn' & Hm' & Ha' & Hl').
    rewrite Hp', Hn', Hm', Ha', Hl'. subst st6. cbn.
    rewrite Hp, Hn, Hm, Ha, Hl. auto.
  - intros Hsafe Hfail [|fuel]; [reflexivity|].
    destruct (main_flight_skipped fuel st Hs) as (st5 & HI5 & ->).
    destruct HI5 as (_ & _ & _ & _ & _ & _ & _ & Hl).
    unfold land. apply bind_OutOfFuel, land_retry_never; [exact Hsafe|].
    intros k. rewrite Hl. apply Hfail.
Qed.

(** *** The marker out of sight *)

Lemma dispatch_not_marker (m : Msg F) (st : Node F) :
  not_marker m ->
  exists st', dispatch env m st = Ok (tt, st') /\
    marker_position st' = marker_position st /\
    setpoint_pos_NWU st' = setpoint_pos_NWU st.
Proof.
  destruct m as [s|a target|p]; cbn [dispatch not_marker]; intros Hm.
  - unfold state_cb, modify. eauto.
  - contradiction.
  - unfold local_position_cb, modify, now, sendTransform, mbind, M_bind. cbn. eauto.
Qed.

Lemma dispatch_all_not_marker (ms : list (Msg F)) : forall st : Node F,
  Forall not_marker ms ->
  exists st', dispatch_all env ms st = Ok (tt, st') /\
    marker_position st' = marker_position st /\
    setpoint_pos_NWU st' = setpoint_pos_NWU st.
Proof.
  induction ms as [|m ms IH]; intros st Hall; cbn [dispatch_all].
  - unfold mret, M_ret. eauto.
  - inversion Hall as [|? ? Hm Hms]; subst.
    destruct (dispatch_not_marker m st Hm) as (st1 & Hst1 & Hmp & Hsp).
    destruct (IH st1 Hms) as (st2 & Hst2 & Hmp2 & Hsp2).
    exists st2. rewrite (bind_step _ _ _ _ _ Hst1).
    split; [exact Hst2|]. split; congruence.
Qed.

Lemma not_marker_no_target (m : Msg F) : not_marker m -> no_target m.
Proof. destruct m; cbn; tauto. Qed.

Lemma no_markers_quiet (lo hi : nat) : no_markers env -> quiet env lo hi.
Proof.
  intros Hno k _. eapply Forall_impl; [apply Hno|]. apply not_marker_no_target.
Qed.

Lemma marker_fresh_false (st : Node F) :
  Duration 1.0 <= ros_now env (n_now st) - pa_stamp (marker_position st) ->
  marker_fresh env st = Ok (false, set_n_now (S (n_now st)) st).
Proof.
  intros Hf. apply Z.ltb_ge in Hf.
  unfold marker_fresh, now, get, mbind, M_bind, mret, M_ret. cbv beta iota.
  cbn [marker_position set_n_now]. rewrite Hf. reflexivity.
Qed.

(** One pass of the search loops while the marker array is stale. *)
Lemma stale_pass (X : M F bool) (st : Node F) :
  no_markers env -> stale_at env (pa_stamp (marker_position st)) ->
  exists st',
    (fresh ← marker_fresh env;
     if (fresh : bool) then X else spinOnce env;; sleep;; mret false) st
      = Ok (false, st') /\
    marker_position st' = marker_position st /\
    setpoint_pos_NWU st' = setpoint_pos_NWU st /\
    published st' = published st /\
    n_spin st' = S (n_spin st) /\ n_ok st' = n_ok st.
Proof.
  intros Hno Hstale.
  rewrite (bind_step _ _ _ _ _ (marker_fresh_false st (Hstale _))). cbv beta iota.
  set (st1 := set_n_now (S (n_now st)) st).
  destruct (dispatch_all_not_marker (inbox env (n_spin st1))
              (set_n_spin (S (n_spin st1)) st1) (Hno _)) as (st2 & Hrun & Hmp & Hsp).
  pose proof (dispatch_all_frame _ _ _ _ Hrun) as Hfr.
  unfold callback_frame in Hfr. cbn in Hfr.
  injection Hfr as _ _ _ Hp Hok Hn _ _ _.
  exists st2. split.
  - assert (Hspin : spinOnce env st1 = Ok (tt, st2)) by exact Hrun.
    rewrite (bind_step _ _ _ _ _ Hspin). reflexivity.
  - rewrite Hmp, Hsp, Hp, Hok, Hn. auto.
Qed.

Lemma stale_loop (X : M F bool) (n : nat) : forall st : Node F,
  no_markers env -> stale_at env (pa_stamp (marker_position st)) ->
  exists (m : nat) (st' : Node F),
    (m <= n)%nat /\
    for_ok_break env n
      (fresh ← marker_fresh env;
       if (fresh : bool) then X else spinOnce env;; sleep;; mret false) st
      = Ok (tt, st') /\
    marker_position st' = marker_position st /\
    setpoint_pos_NWU st' = setpoint_pos_NWU st /\
    published st' = published st /\
    n_spin st' = (n_spin st + m)%nat /\
    ((forall k, ros_ok env k = true) -> m = n).
Proof.
  induction n as [|n IH]; intros st Hno Hstale; cbn [for_ok_break].
  - exists 0%nat. eexists. split; [lia|]. split.
    + unfold ok, mbind, M_bind, mret, M_ret. cbv beta iota.
      destruct (ros_ok env (n_ok st)); reflexivity.
    + cbn. repeat split; auto.
  - unfold ok at 1, mbind at 1, M_bind at 1. cbv beta iota.
    destruct (ros_ok env (n_ok st)) eqn:Eok.
    2: { exists 0%nat. eexists. split; [lia|]. split; [reflexivity|].
         cbn. split; [reflexivity|]. split; [reflexivity|].
         split; [reflexivity|]. split; [lia|].
         intros Hok. rewrite Hok in Eok. discriminate. }
    set (st0 := set_n_ok (S (n_ok st)) st).
    destruct (stale_pass X st0 Hno Hstale) as (st1 & Hbody & Hmp & Hsp & Hp & Hn & _).
    rewrite (bind_step _ _ _ _ _ Hbody). cbv beta iota.
    destruct (IH st1 Hno) as (m & st' & Hm & Hrun & Hmp' & Hsp' & Hp' & Hn' & Hall).
    { rewrite Hmp. exact Hstale. }
    exists (S m), st'. split; [lia|]. split; [exact Hrun|].
    rewrite Hmp', Hsp', Hp', Hn', Hmp, Hsp, Hp, Hn. cbn.
    split; [reflexivity|]. split; [reflexivity|]. split; [reflexivity|].
    split; [lia|]. intros Hok. now rewrite (Hall Hok).
Qed.

Lemma stream_hover (d : Z) (n : nat) :
  preserved (fun st => stream_lead st = d) (for_ok env n (publish_spin_sleep env)).
Proof.
  preserve ltac:(first [ apply stream_publish_spin_sleep | counter_step ]).
Qed.

(** X11: while no marker message arrives and the stored marker array is
    more than a second old, turnTowardsMarker leaves the setpoint alone and
    serves the callback queue up to 100 times (exactly 100 times, five
    seconds at 20 Hz, while ROS keeps running) without publishing one
    setpoint; approachMarker does the same and then publishes the unchanged
    setpoint at most 60 times. *)
Theorem marker_out_of_sight (st : Node F) :
  no_markers env -> stale_at env (pa_stamp (marker_position st)) ->
  (exists (m : nat) (st' : Node F),
     (m <= 100)%nat /\
     turnTowardsMarker env st = Ok (tt, st') /\
     published st' = published st /\
     setpoint_pos_NWU st' = setpoint_pos_NWU st /\
     n_spin st' = (n_spin st + m)%nat /\
     ((forall k, ros_ok env k = true) -> m = 100%nat)) /\
  (exists (m j : nat) (st' : Node F),
     (m <= 100)%nat /\ (j <= 60)%nat /\
     approachMarker env st = Ok (tt, st') /\
     published st' = published st ++ replicate j (setpoint_pos_NWU st) /\
     setpoint_pos_NWU st' = setpoint_pos_NWU st /\
     n_spin st' = (n_spin st + m + j)%nat /\
     ((forall k, ros_ok env k = true) -> m = 100%nat)).
Proof.
  intros Hno Hstale. split.
  - unfold turnTowardsMarker. rewrite iterations_5s.
    match goal with |- context [if _ then ?X else _] =>
      destruct (stale_loop X 100 st Hno Hstale)
        as (m & st' & Hm & Hrun & _ & Hsp & Hp & Hn & Hall) end.
    exists m, st'. auto 10.
  - unfold approachMarker, MAX_ATTEMPTS.
    change (iterations (3 * ROS_RATE)) with 60%nat.
    match goal with |- context [if _ then ?X else _] =>
      destruct (stale_loop X 100 st Hno Hstale)
        as (m & st1 & Hm & Hrun & _ & Hsp & Hp & Hn & Hall) end.
    destruct (hold_loop env 60 st1 (no_markers_quiet _ _ Hno))
      as (j & st' & Hj & Hrun' & Hp' & Hsp' & _).
    pose proof (stream_hover (stream_lead st1) 60 st1 tt st' eq_refl Hrun') as Hlead.
    exists m, j, st'. split; [exact Hm|]. split; [exact Hj|]. split.
    { rewrite (bind_step _ _ _ _ _ Hrun). exact Hrun'. }
    rewrite Hp', Hsp', Hsp, Hp. repeat split; auto.
    unfold stream_lead in Hlead. rewrite Hp', length_app, length_replicate in Hlead.
    lia.
Qed.

(** *** What is never written to the setpoint *)

Lemma preserved_poses_0 (I : Node F -> Prop) : preserved I poses_0.
Proof.
  intros st a st' HI. unfold poses_0, get, fault, mbind, M_bind, mret, M_ret.
  cbv beta iota. destruct (poses (marker_position st)); [discriminate|].
  intros [= _ <-]. exact HI.
Qed.

Lemma dispatch_heading (m : Msg F) (st st' : Node F) :
  dispatch env m st = Ok (tt, st') ->
  same_heading (setpoint_pos_NWU st) (setpoint_pos_NWU st').
Proof.
  destruct m as [s|a target|p]; cbn [dispatch].
  - unfold state_cb, modify. intros [= <-]. now split.
  - unfold marker_position_cb, poses_0, modify, now, get, fault, sendTransform,
      mbind, M_bind, mret, M_ret. cbn.
    destruct (poses a) as [|p0 ps]; [discriminate|].
    destruct target; cbn; intros [= <-]; now split.
  - unfold local_position_cb, modify, now, sendTransform, mbind, M_bind. cbn.
    intros [= <-]. now split.
Qed.

Lemma dispatch_all_heading (ms : list (Msg F)) : forall st st' : Node F,
  dispatch_all env ms st = Ok (tt, st') ->
  same_heading (setpoint_pos_NWU st) (setpoint_pos_NWU st').
Proof.
  induction ms as [|m ms IH]; intros st st'; cbn [dispatch_all].
  - intros [= <-]. now split.
  - intros Hrun. apply bind_Ok in Hrun as ([] & st1 & Hm & Hrest).
    destruct (dispatch_heading _ _ _ Hm) as [E1 E2].
    destruct (IH _ _ Hrest) as [E3 E4]. split; congruence.
Qed.

Lemma spinOnce_heading (st st' : Node F) :
  spinOnce env st = Ok (tt, st') ->
  same_heading (setpoint_pos_NWU st) (setpoint_pos_NWU st') /\
  published st' = published st.
Proof.
  intros Hrun. apply (proj1 (spinOnce_Ok env _ _)) in Hrun. split.
  - exact (dispatch_all_heading _ _ _ Hrun).
  - apply dispatch_all_frame in Hrun. unfold callback_frame in Hrun.
    cbn in Hrun. now injection Hrun as _ _ _ -> _ _ _ _ _.
Qed.

Lemma stamped_spinOnce (t : Time) : preserved (stamped t) (spinOnce env).
Proof.
  intros st [] st' [Hs Hp] Hrun.
  apply spinOnce_heading in Hrun as [[E _] Ep]. split; [congruence|].
  now rewrite Ep.
Qed.

Lemma stamped_publish_setpoint (t : Time) :
  preserved (stamped (F := F) t) publish_setpoint.
Proof.
  apply preserved_modify. intros st [Hs Hp]. split; [exact Hs|].
  cbn [published set_published]. apply Forall_app. split; [exact Hp|].
  now apply Forall_singleton.
Qed.

Ltac stamped_prim :=
  first
    [ apply stamped_spinOnce
    | apply stamped_publish_setpoint
    | apply preserved_poses_0
    | apply preserved_modify; intros ? ?; assumption
    | counter_step ].

(** X13: no header stamp is ever given to a setpoint.  Through the whole
    of main, callbacks included, the setpoint keeps the stamp it had at
    the start, and so does every setpoint published. *)
Theorem setpoints_never_stamped (fuel : nat) (t : Time) (st st' : Node F) :
  main env fuel st = Ok (tt, st') -> stamped t st -> stamped t st'.
Proof.
  intros Hrun HI. revert Hrun.
  assert (Hp : preserved (stamped t) (main env fuel)).
  { unfold main, offboardMode, takeOff, turnTowardsMarker, approachMarker, land,
      land_retry, land_disarm, publish_spin_sleep, request_due, marker_fresh,
      currentYaw, sleep.
    cbv zeta. preserve stamped_prim. }
  intros Hrun. exact (Hp st tt st' HI Hrun).
Qed.

Lemma heading_kept_spinOnce (sp : PoseStamped F) (pub0 : list (PoseStamped F)) :
  preserved (heading_kept sp pub0) (spinOnce env).
Proof.
  intros st [] st' [[Hs Ho] Hp] Hrun.
  apply spinOnce_heading in Hrun as [[E1 E2] Ep]. split.
  - split; congruence.
  - now rewrite Ep.
Qed.

Lemma heading_kept_publish_setpoint (sp : PoseStamped F)
    (pub0 : list (PoseStamped F)) :
  preserved (heading_kept sp pub0) publish_setpoint.
Proof.
  apply preserved_modify. intros st [Hs (new & Hp & Hall)]. split; [exact Hs|].
  exists (new ++ [setpoint_pos_NWU st]). cbn [published set_published]. split.
  - rewrite Hp. now rewrite app_assoc.
  - apply Forall_app. split; [exact Hall|]. now apply Forall_singleton.
Qed.

Ltac heading_prim :=
  first
    [ apply heading_kept_spinOnce
    | apply heading_kept_publish_setpoint
    | apply preserved_poses_0
    | apply preserved_modify; intros ? ?; assumption
    | counter_step ].

Lemma heading_kept_start (st : Node F) :
  heading_kept (setpoint_pos_NWU st) (published st) st.
Proof.
  split; [now split|]. exists []. split; [now rewrite app_nil_r|constructor].
Qed.

(** X14: takeOff and approachMarker never turn the vehicle: whatever the
    callbacks they run receive, every setpoint they publish, and the
    setpoint they leave behind, has the orientation (and the stamp) the
    setpoint had on entry; only its position can have been replaced. *)
Theorem heading_held (st st' : Node F) :
  (takeOff env st = Ok (tt, st') ->
   heading_kept (setpoint_pos_NWU st) (published st) st') /\
  (approachMarker env st = Ok (tt, st') ->
   heading_kept (setpoint_pos_NWU st) (published st) st').
Proof.
  split; intros Hrun; revert Hrun.
  - assert (Hp : preserved (heading_kept (setpoint_pos_NWU st) (published st))
                   (takeOff env)).
    { unfold takeOff, publish_spin_sleep, sleep. preserve heading_prim. }
    intros Hrun. exact (Hp st tt st' (heading_kept_start st) Hrun).
  - assert (Hp : preserved (heading_kept (setpoint_pos_NWU st) (published st))
                   (approachMarker env)).
    { unfold approachMarker, publish_spin_sleep, marker_fresh, sleep.
      preserve heading_prim. }
    intros Hrun. exact (Hp st tt st' (heading_kept_start st) Hrun).
Qed.

End Node.
End TakeoffNLandMore.

(** * Runs on concrete inputs *)

Module VolumeRuns.
Import DistanceVolume Sample.

(** The two points occupy their voxels, the origin voxel is carved free. *)
Example insert_tiny_occupancy :
  occupancy (insertPointCloud 1 tiny_cloud tiny_origin tiny_volume) =
  [Free; Unknown; Unknown; Occupied; Occupied; Unknown; Unknown; Unknown].
Proof. vm_compute. reflexivity. Qed.

Example insert_tiny_distances :
  distances (insertPointCloud 1 tiny_cloud tiny_origin tiny_volume) =
  [5; 5; 5; 0; 0; 5; 5; 5]%Q.
Proof. vm_compute. reflexivity. Qed.

(** A second insertion only renews the ticks of the voxels it writes. *)
Example insert_tiny_twice_ticks :
  tick <$> voxels (insertPointCloud 1 tiny_cloud tiny_origin tiny_volume) =
    [0; 0; 0; 0; 0; 0; 0; 0]%nat /\
  tick <$> voxels (insertPointCloud 1 tiny_cloud tiny_origin
                     (insertPointCloud 1 tiny_cloud tiny_origin tiny_volume)) =
    [1; 0; 0; 1; 1; 0; 0; 0]%nat.
Proof. split; vm_compute; reflexivity. Qed.

(** Moving the window up along x and down along z clears the lowest x
    layer and the highest z layer. *)
Example move_tiny :
  let e := moveVolume 1 (mkVec3 1 0 (-1))
             (insertPointCloud 1 tiny_cloud tiny_origin tiny_volume) in
  occupancy e =
    [Unknown; Unknown; Unknown; Unknown; Occupied; Unknown; Unknown; Unknown] /\
  offset e = mkVec3 1 0 (-1) /\
  getVolumeCenter 1 e = mkVec3 2 1 0.
Proof. repeat split; vm_compute; reflexivity. Qed.

End VolumeRuns.

Module PlannerRuns.
Import DistanceVolume TrajectoryPlanner Sample TrajectoryPlannerFacts.


Lemma depth_cam_cb_drops_frame_witness :
  deaf_listener (stamp sample_depth_msg) =
    inr "Lookup would require extrapolation into the future"%string /\
  exists log,
    depth_cam_cb deaf_listener sample_depth_msg sample_planner =
    Some (sample_planner, log).
Proof.
  split; [reflexivity|].
  apply (depth_cam_cb_drops_frame deaf_listener sample_depth_msg sample_planner
           "Lookup would require extrapolation into the future"%string).
  reflexivity.
Defined.

Lemma sample_image_wf : wf_image sample_image.
Proof.
  unfold wf_image, sample_image, Int32.half_modulus. cbn.
  repeat split; try lia. repeat constructor; lia.
Defined.

Lemma build_cloud_pinhole_witness :
  wf_image sample_image /\
  exists pixels : list (Z * Z),
    NoDup pixels /\
    (forall u v, (u, v) ∈ pixels <->
       0 <= u < cols sample_image /\ u mod 4 = 0 /\
       0 <= v < rows sample_image /\ v mod 4 = 0 /\
       range_sample sample_image u v <> 0) /\
    build_cloud (translation_by 1 2 0) sample_image =
    Some (world_point (translation_by 1 2 0) sample_image <$> pixels).
Proof.
  split; [exact sample_image_wf|].
  apply (build_cloud_pinhole (translation_by 1 2 0) sample_image sample_image_wf).
Defined.

Example build_cloud_sample :
  build_cloud (translation_by 1 2 0) sample_image =
  Some (world_point (translation_by 1 2 0) sample_image <$> [(0, 0); (0, 4); (4, 4)]).
Proof. vm_compute. reflexivity. Qed.

Lemma endpoint_position_cb_rebuilds_witness :
  position (pose (local_position sample_planner)) =
    position (pose (local_position (endpoint_position_cb (mkPoseStamped 1 (pose_at 9 9 9)) sample_planner))) /\
  edrb sample_planner = edrb (endpoint_position_cb (mkPoseStamped 1 (pose_at 9 9 9)) sample_planner) /\
  is_Some (spline_optimization (endpoint_position_cb sample_goal sample_planner)) /\
  spline_optimization (endpoint_position_cb sample_goal sample_planner) =
  spline_optimization
    (endpoint_position_cb sample_goal
       (endpoint_position_cb (mkPoseStamped 1 (pose_at 9 9 9)) sample_planner)) /\
  traj (endpoint_position_cb sample_goal sample_planner) =
  traj (endpoint_position_cb sample_goal
          (endpoint_position_cb (mkPoseStamped 1 (pose_at 9 9 9)) sample_planner)).
Proof.
  split; [reflexivity|]. split; [reflexivity|].
  apply (endpoint_position_cb_rebuilds sample_goal sample_planner
           (endpoint_position_cb (mkPoseStamped 1 (pose_at 9 9 9)) sample_planner));
    reflexivity.
Defined.

Lemma voxel_count_constant_witness :
  Forall wf_event sample_events /\
  exists st, spin sample_events (main_init 0%nat) = Some st /\
    voxels_held st = (2 ^ POW) ^ 3 /\ (2 ^ POW) ^ 3 = 262144.
Proof.
  assert (Hwf : Forall wf_event sample_events).
  { unfold sample_events.
    repeat first
      [ apply List.Forall_nil
      | apply List.Forall_cons; [first [exact I | exact sample_image_wf]|] ]. }
  split; [exact Hwf|].
  apply (voxel_count_constant 0%nat sample_events Hwf).
Defined.

End PlannerRuns.

Module NodeRuns.
Import TakeoffNLand Sample TakeoffNLandFacts.

Lemma env_silent_quiet lo hi : quiet env_silent lo hi.
Proof. intros k _. apply List.Forall_nil. Defined.

Lemma env_silent_safe : inbox_safe env_silent.
Proof. intros k. apply List.Forall_nil. Defined.

Lemma env_marker_seen_quiet_20 : quiet env_marker_seen 0 20.
Proof.
  intros k Hk.
  do 20 (destruct k as [|k];
         [repeat first [apply List.Forall_nil
                       |apply List.Forall_cons; [first [exact I|now split]|]]|]).
  lia.
Defined.

(** With the marker in view the take-off loop publishes the target
    position, not the pose held by offboardMode. *)
Lemma takeOff_setpoint_overwritten :
  exists st1 st2 : Node Q,
    offboardMode env_marker_seen 1 initial_node = Ok (tt, st1) /\
    takeOff env_marker_seen st1 = Ok (tt, st2) /\
    setpoint_pos_NWU st1 = hold_setpoint /\
    published st2 = published st1 ++ hold_setpoint :: replicate 199 moved_setpoint /\
    setpoint_pos_NWU st2 = moved_setpoint /\
    moved_setpoint <> hold_setpoint.
Proof.
  eexists. eexists.
  split; [vm_compute; reflexivity|].
  split; [vm_compute; reflexivity|].
  split; [vm_compute; reflexivity|].
  split; [vm_compute; reflexivity|].
  split; [vm_compute; reflexivity|].
  vm_compute. discriminate.
Qed.

Lemma takeOff_publishes_hold_witness :
  quiet env_silent (n_spin armed_node) (n_spin armed_node + 200) /\
  (exists (m : nat) (st' : Node Q),
     (m <= 200)%nat /\
     takeOff env_silent armed_node = Ok (tt, st') /\
     published st' = published armed_node ++ replicate m (setpoint_pos_NWU armed_node) /\
     setpoint_pos_NWU st' = setpoint_pos_NWU armed_node /\
     pose_NWU st' = takeoff_target armed_node) /\
  (exists st1 : Node Q,
     offboardMode env_marker_seen 1 initial_node = Ok (tt, st1) /\
     quiet env_marker_seen (n_spin initial_node) (n_spin st1) /\
     pose (setpoint_pos_NWU st1) = pose (local_position initial_node)).
Proof.
  destruct (takeOff_publishes_hold env_marker_seen) as [_ Hhold].
  destruct (takeOff_publishes_hold env_silent) as [Hloop _].
  split; [apply env_silent_quiet|]. split.
  - apply Hloop, env_silent_quiet.
  - eexists. split; [vm_compute; reflexivity|].
    split; [exact env_marker_seen_quiet_20|].
    apply (Hhold 1%nat initial_node);
      [vm_compute; reflexivity|exact env_marker_seen_quiet_20].
Defined.

Lemma poses_0_unchecked_witness :
  poses (mkPoseArray (F := Q) 5 []) = [] /\
  ros_ok env_silent (n_ok initial_node) = true /\
  fresh_at env_silent initial_node /\
  poses (marker_position (F := Q) initial_node) = [] /\
  marker_position_cb env_silent (mkPoseArray 5 []) None armed_node = Fault /\
  turnTowardsMarker env_silent initial_node = Fault /\
  approachMarker env_silent initial_node = Fault.
Proof.
  destruct (poses_0_unchecked env_silent) as (Hcb & Hturn & Happroach).
  assert (Hfresh : fresh_at env_silent initial_node) by reflexivity.
  split; [reflexivity|]. split; [reflexivity|]. split; [exact Hfresh|].
  split; [reflexivity|]. split; [|split].
  - apply Hcb. reflexivity.
  - apply Hturn; [reflexivity|exact Hfresh|reflexivity].
  - apply Happroach; [reflexivity|exact Hfresh|reflexivity].
Defined.

(** The node is shut down while land waits: land returns although the
    vehicle still reports armed. *)
Lemma land_returns_while_armed :
  exists st' : Node Q,
    land env_shutdown 1 armed_node = Ok (tt, st') /\
    armed (current_state st') = true.
Proof.
  eexists. split; [vm_compute; reflexivity|]. vm_compute. reflexivity.
Qed.

Lemma land_returns_after_success_witness :
  inbox_safe env_silent /\
  (exists fuel st', land_retry env_silent fuel armed_node = Ok (tt, st')) /\
  (exists st' : Node Q,
     land env_shutdown 1 armed_node = Ok (tt, st') /\
     (n_land armed_node < n_land st')%nat /\
     land_srv env_shutdown (pred (n_land st')) = (true, true) /\
     (armed (current_state st') = false \/
      ros_ok env_shutdown (pred (n_ok st')) = false)).
Proof.
  destruct (land_returns_after_success env_silent armed_node) as [_ Hretry].
  destruct (land_returns_after_success env_shutdown armed_node) as [Hland _].
  split; [exact env_silent_safe|]. split.
  - apply (Hretry env_silent_safe). exists 0%nat. reflexivity.
  - eexists. split; [vm_compute; reflexivity|].
    apply (Hland 1%nat). vm_compute. reflexivity.
Defined.

End NodeRuns.

Module PlannerMoreRuns.
Import DistanceVolume TrajectoryPlanner Sample TrajectoryPlannerFacts.
Import PlannerRuns TrajectoryPlannerMore.

Lemma sample_events_wf : Forall wf_event sample_events.
Proof.
  unfold sample_events.
  repeat first
    [ apply List.Forall_nil
    | apply List.Forall_cons; [first [exact I | exact sample_image_wf]|] ].
Defined.

Lemma initialized_iff_ingested_witness :
  Forall wf_event sample_events /\
  exists st,
    spin sample_events (main_init 0%nat) = Some st /\
    initialized st = true /\
    (forall evs' st', spin evs' st = Some st' ->
       initialized st = true -> initialized st' = true).
Proof.
  split; [exact sample_events_wf|].
  destruct (initialized_iff_ingested 0%nat sample_events) as [Hret Hflag].
  destruct (Hret sample_events_wf) as [st Hrun].
  destruct (Hflag st Hrun) as [Hinit Hkeep].
  exists st. split; [exact Hrun|]. split; [|exact Hkeep].
  rewrite Hinit. reflexivity.
Defined.

Lemma volume_from_depth_frames_witness :
  Forall wf_event sample_events /\
  exists st st',
    spin sample_events (main_init 0%nat) = Some st /\
    spin [DepthImage sample_listener sample_depth_msg;
          DepthImage deaf_listener sample_depth_msg;
          DepthImage sample_listener sample_depth_msg] (main_init 0%nat) = Some st' /\
    edrb_obj st' = edrb_obj st /\ initialized st' = initialized st.
Proof.
  split; [exact sample_events_wf|].
  destruct (volume_from_depth_frames 0%nat sample_events) as [Hret Hvol].
  destruct (Hret sample_events_wf) as [st Hrun].
  destruct (Hvol st Hrun) as (st' & Hrun' & Hv & Hi).
  exists st, st'. split; [exact Hrun|]. split; [exact Hrun'|]. split; assumption.
Defined.

Lemma goal_planned_from_last_position_witness :
  Forall wf_event sample_events /\
  exists st,
    spin (sample_events ++ [EndpointPosition (mkPoseStamped 9 (pose_at 7 7 7))])
         (main_init 0%nat) = Some st /\
    traj st = Some (computeTrajectory limits [mkVec3 1 2 0; mkVec3 7 7 7]%Q) /\
    endpoint_position st = mkPoseStamped 9 (pose_at 7 7 7).
Proof.
  split; [exact sample_events_wf|].
  destruct (goal_planned_from_last_position 0%nat sample_events
              (mkPoseStamped 9 (pose_at 7 7 7))) as [Hret Hplan].
  destruct (Hret sample_events_wf) as [st Hrun].
  destruct (Hplan st Hrun) as (Htraj & _ & Hgoal).
  exists st. split; [exact Hrun|]. split; [exact Htraj|exact Hgoal].
Defined.

Lemma build_cloud_size_witness :
  wf_image sample_image /\
  exists cloud,
    build_cloud (translation_by 1 2 0) sample_image = Some cloud /\
    Z.of_nat (length cloud) <= 4.
Proof.
  split; [exact sample_image_wf|].
  destruct (build_cloud_size (translation_by 1 2 0) sample_image sample_image_wf)
    as (cloud & Hrun & Hlen & _).
  exists cloud. split; [exact Hrun|exact Hlen].
Defined.

Lemma sample_image_int_sized : int_sized sample_image.
Proof.
  unfold int_sized, sample_image, Int32.half_modulus. cbn.
  repeat split; lia.
Defined.

Lemma short_image_int_sized : int_sized short_image.
Proof.
  unfold int_sized, short_image, Int32.half_modulus. cbn.
  repeat split; lia.
Defined.

Lemma build_cloud_in_bounds_witness :
  int_sized sample_image /\ int_sized short_image /\
  sampled_in_buffer sample_image /\
  ~ sampled_in_buffer short_image /\
  build_cloud (translation_by 1 2 0) short_image = None.
Proof.
  assert (Hshort : ~ sampled_in_buffer short_image).
  { intros Hin. specialize (Hin 4 4).
    assert (H4 : forall b, b = 5 \/ b = 6 -> 4 ∈ strided b).
    { intros b [-> | ->]; vm_compute; constructor 2; constructor 1. }
    specialize (Hin (H4 6 (or_intror eq_refl)) (H4 5 (or_introl eq_refl))).
    vm_compute in Hin. lia. }
  split; [exact sample_image_int_sized|]. split; [exact short_image_int_sized|].
  split; [|split; [exact Hshort|]].
  - apply (build_cloud_in_bounds (translation_by 1 2 0) sample_image
             sample_image_int_sized).
    eexists. vm_compute. reflexivity.
  - destruct (build_cloud (translation_by 1 2 0) short_image) as [cloud|] eqn:E;
      [|reflexivity].
    exfalso. apply Hshort.
    apply (build_cloud_in_bounds (translation_by 1 2 0) short_image
             short_image_int_sized).
    rewrite E. now eexists.
Defined.

End PlannerMoreRuns.

Module NodeMoreRuns.
Import TakeoffNLand Sample TakeoffNLandFacts TakeoffNLandMore.

Lemma node_after_30_shut_down : shut_down env_shutdown node_after_30.
Proof. intros k Hk. apply Nat.ltb_ge. exact Hk. Defined.

Lemma env_no_landing_shut_down : shut_down env_no_landing armed_node.
Proof. intros k _. reflexivity. Defined.

Lemma env_silent_never_armed : never_armed env_silent.
Proof. intros k. apply List.Forall_nil. Defined.

Lemma env_late_no_markers : no_markers env_late.
Proof. intros k. apply List.Forall_nil. Defined.

Lemma env_late_stale : stale_at env_late (pa_stamp (marker_position armed_node)).
Proof. intros k. vm_compute. discriminate. Defined.

Lemma connection_wait_inverted_witness :
  connected (current_state (initial_node (F := Q))) = false /\
  main env_shutdown 20 initial_node =
    (offboardMode env_shutdown 20;; takeOff env_shutdown;;
     turnTowardsMarker env_shutdown;; approachMarker env_shutdown;;
     land env_shutdown 20) (set_n_ok 1 initial_node) /\
  exists st' : Node Q,
    wait_for_connection env_shutdown 1 initial_node = Ok (tt, st') /\
    n_spin st' = 0%nat /\
    (connected (current_state st') = false \/
     ros_ok env_shutdown (pred (n_ok st')) = false).
Proof.
  destruct (connection_wait_inverted env_shutdown) as (_ & Hskip & Hexit).
  split; [reflexivity|]. split.
  - apply (Hskip 19%nat initial_node). reflexivity.
  - eexists. split; [vm_compute; reflexivity|]. split; [reflexivity|].
    apply (Hexit 1%nat initial_node). vm_compute. reflexivity.
Defined.

Lemma offboardMode_until_armed_witness :
  (exists st' : Node Q,
     offboardMode env_marker_seen 1 initial_node = Ok (tt, st') /\
     (armed (current_state st') = true \/
      ros_ok env_marker_seen (pred (n_ok st')) = false)) /\
  never_armed env_silent /\
  (forall fuel, offboardMode env_silent fuel initial_node = OutOfFuel).
Proof.
  destruct (offboardMode_until_armed env_marker_seen) as [Hexit _].
  destruct (offboardMode_until_armed env_silent) as [_ Hnever].
  split; [|split; [exact env_silent_never_armed|]].
  - eexists. split; [vm_compute; reflexivity|].
    apply (Hexit 1%nat initial_node). vm_compute. reflexivity.
  - intros fuel. apply (Hnever env_silent_never_armed); reflexivity.
Defined.

Lemma one_setpoint_per_spin_witness :
  (exists st' : Node Q,
     offboardMode env_marker_seen 1 initial_node = Ok (tt, st') /\
     stream_lead st' = 0) /\
  (exists st' : Node Q,
     takeOff env_silent armed_node = Ok (tt, st') /\ stream_lead st' = 0).
Proof.
  destruct (one_setpoint_per_spin env_marker_seen) as [Hoff _].
  destruct (one_setpoint_per_spin env_silent) as [_ Htake].
  split.
  - eexists. split; [vm_compute; reflexivity|].
    apply (Hoff 1%nat initial_node). vm_compute. reflexivity.
  - eexists. split; [vm_compute; reflexivity|].
    apply (Htake armed_node). vm_compute. reflexivity.
Defined.

Lemma shutdown_skips_flight_witness :
  shut_down env_shutdown node_after_30 /\
  (exists st', offboardMode env_shutdown 1 node_after_30 = Ok (tt, st') /\
     untouched node_after_30 st') /\
  (exists st', takeOff env_shutdown node_after_30 = Ok (tt, st') /\
     untouched node_after_30 st') /\
  (exists st', turnTowardsMarker env_shutdown node_after_30 = Ok (tt, st') /\
     untouched node_after_30 st') /\
  (exists st', approachMarker env_shutdown node_after_30 = Ok (tt, st') /\
     untouched node_after_30 st').
Proof.
  destruct (shutdown_skips_flight env_shutdown node_after_30 node_after_30_shut_down)
    as (Hoff & (s2 & H2 & U2 & _) & (s3 & H3 & U3 & _) & (s4 & H4 & U4 & _)).
  destruct (Hoff 0%nat) as (s1 & H1 & U1 & _).
  split; [exact node_after_30_shut_down|].
  split; [exists s1; split; assumption|].
  split; [exists s2; split; assumption|].
  split; [exists s3; split; assumption|].
  exists s4; split; assumption.
Defined.

Lemma shutdown_still_lands_witness :
  shut_down env_shutdown node_after_30 /\
  land_srv env_shutdown (n_land node_after_30) = (true, true) /\
  (exists st',
     main env_shutdown 1 node_after_30 = Ok (tt, st') /\
     published st' = published node_after_30 /\
     n_spin st' = n_spin node_after_30 /\
     n_land st' = S (n_land node_after_30)) /\
  shut_down env_no_landing armed_node /\
  (forall fuel, main env_no_landing fuel armed_node = OutOfFuel).
Proof.
  destruct (shutdown_still_lands env_shutdown node_after_30 node_after_30_shut_down)
    as [Hland _].
  destruct (shutdown_still_lands env_no_landing armed_node env_no_landing_shut_down)
    as [_ Hnever].
  split; [exact node_after_30_shut_down|]. split; [reflexivity|]. split.
  - destruct (Hland eq_refl 0%nat) as (st' & Hrun & Hp & Hn & _ & _ & Hl).
    exists st'. split; [exact Hrun|]. split; [exact Hp|]. split; [exact Hn|exact Hl].
  - split; [exact env_no_landing_shut_down|].
    apply Hnever.
    + intros k. apply List.Forall_nil.
    + intros k. discriminate.
Defined.

Lemma marker_out_of_sight_witness :
  no_markers env_late /\
  stale_at env_late (pa_stamp (marker_position armed_node)) /\
  (exists st' : Node Q,
     turnTowardsMarker env_late armed_node = Ok (tt, st') /\
     published st' = published armed_node /\
     n_spin st' = (n_spin armed_node + 100)%nat) /\
  (exists (j : nat) (st' : Node Q),
     (j <= 60)%nat /\
     approachMarker env_late armed_node = Ok (tt, st') /\
     published st' = published armed_node ++ replicate j (setpoint_pos_NWU armed_node) /\
     n_spin st' = (n_spin armed_node + 100 + j)%nat).
Proof.
  destruct (marker_out_of_sight env_late armed_node env_late_no_markers env_late_stale)
    as [(m & s1 & _ & H1 & P1 & _ & N1 & A1) (m' & j & s2 & _ & Hj & H2 & P2 & _ & N2 & A2)].
  split; [exact env_late_no_markers|]. split; [exact env_late_stale|]. split.
  - exists s1. split; [exact H1|]. split; [exact P1|].
    rewrite N1, (A1 (fun _ => eq_refl)). reflexivity.
  - exists j, s2. split; [exact Hj|]. split; [exact H2|]. split; [exact P2|].
    rewrite N2, (A2 (fun _ => eq_refl)). reflexivity.
Defined.

Lemma land_publishes_per_failed_request_witness :
  exists st' : Node Q,
    land env_landing_retried 3 armed_node = Ok (tt, st') /\
    n_land st' = 3%nat /\
    Z.of_nat (length (published st')) - Z.of_nat (length (published armed_node)) = 2.
Proof.
  eexists. split; [vm_compute; reflexivity|]. split; [vm_compute; reflexivity|].
  match goal with |- context [length (published ?s')] =>
    rewrite (land_publishes_per_failed_request env_landing_retried 3 armed_node s')
      by (vm_compute; reflexivity)
  end.
  vm_compute. reflexivity.
Defined.

Lemma setpoints_never_stamped_witness :
  stamped 0 (initial_node (F := Q)) /\
  exists st' : Node Q,
    main env_shutdown 20 initial_node = Ok (tt, st') /\
    published st' <> [] /\ stamped 0 st'.
Proof.
  assert (Hst : stamped 0 (initial_node (F := Q))).
  { split; [reflexivity|apply List.Forall_nil]. }
  split; [exact Hst|].
  eexists. split; [vm_compute; reflexivity|]. split; [vm_compute; discriminate|].
  apply (setpoints_never_stamped env_shutdown 20 0 initial_node);
    [vm_compute; reflexivity|exact Hst].
Defined.

Lemma heading_held_witness :
  (exists s0 st' : Node Q,
     offboardMode env_marker_seen 1 initial_node = Ok (tt, s0) /\
     takeOff env_marker_seen s0 = Ok (tt, st') /\
     heading_kept (setpoint_pos_NWU s0) (published s0) st') /\
  (exists st' : Node Q,
     approachMarker env_late armed_node = Ok (tt, st') /\
     heading_kept (setpoint_pos_NWU armed_node) (published armed_node) st').
Proof.
  split.
  - eexists. eexists. split; [vm_compute; reflexivity|].
    split; [vm_compute; reflexivity|].
    match goal with |- heading_kept (setpoint_pos_NWU ?s) _ ?s' =>
      apply (proj1 (heading_held env_marker_seen s s')) end.
    vm_compute. reflexivity.
  - eexists. split; [vm_compute; reflexivity|].
    match goal with |- heading_kept _ _ ?s' =>
      apply (proj2 (heading_held env_late armed_node s')) end.
    vm_compute. reflexivity.
Defined.

End NodeMoreRuns.
